(** * kube-graffiti: configuration, start-up sequence and rule engine

    A shallow embedding of [pkg/config/config.go] and [cmd/command.go],
    together with a model of the graffiti rule engine (whose package is
    described by the specification only), and the properties that relate
    them to the written specification. *)

From Stdlib Require Import ZArith Ascii String List Bool Lia.
From stdpp Require Import base option list gmap strings pretty.

Open Scope string_scope.
Open Scope list_scope.
Set Warnings "-register-all,-clear-no-such-hyp".

(* ===================================================================== *)
(** * Dynamically typed values

    The configuration tree read by viper and the raw object document seen
    by the rule engine are both dynamically typed trees: mappings,
    sequences, strings, numbers and booleans.  A missing value (Go's
    [nil]) is [None] at type [option value]. *)

Inductive value : Type :=
| VBool (b : bool)
| VNum (n : Z)
| VStr (s : string)
| VSeq (l : list value)
| VMap (m : list (string * value)).

(* ===================================================================== *)
(** * ASCII string helpers *)

Module Str.

Definition upper_ascii (c : ascii) : ascii :=
  let n := N_of_ascii c in
  if ((97 <=? n) && (n <=? 122))%N then ascii_of_N (n - 32) else c.

(** [strings.ToUpper], on ASCII input. *)
Fixpoint ToUpper (s : string) : string :=
  match s with
  | EmptyString => EmptyString
  | String c r => String (upper_ascii c) (ToUpper r)
  end.

(** A [strings.Replacer] whose patterns are single characters: the first
    pair whose pattern equals the character gives its replacement. *)
Fixpoint replace_ascii (pairs : list (ascii * ascii)) (c : ascii) : ascii :=
  match pairs with
  | [] => c
  | (old, new) :: rest =>
      if Ascii.eqb c old then new else replace_ascii rest c
  end.

Fixpoint Replace (pairs : list (ascii * ascii)) (s : string) : string :=
  match s with
  | EmptyString => EmptyString
  | String c r => String (replace_ascii pairs c) (Replace pairs r)
  end.

(** [strings.HasPrefix s p]. *)
Fixpoint HasPrefix (s p : string) {struct p} : bool :=
  match p, s with
  | EmptyString, _ => true
  | String _ _, EmptyString => false
  | String a p', String b s' => Ascii.eqb a b && HasPrefix s' p'
  end.

End Str.

(* ===================================================================== *)
(** * The parts of [spf13/cast] and [spf13/viper] the program relies on *)

Module cast.

(** [strconv.ParseBool]: the accepted spellings, [None] for an error. *)
Definition ParseBool (s : string) : option bool :=
  if bool_decide (s ∈ ["1"; "t"; "T"; "TRUE"; "true"; "True"]) then Some true
  else if bool_decide (s ∈ ["0"; "f"; "F"; "FALSE"; "false"; "False"])
       then Some false
       else None.

(** [cast.ToBool]: errors and unsupported kinds give [false]. *)
Definition ToBool (o : option value) : bool :=
  match o with
  | Some (VBool b) => b
  | Some (VNum n) => negb (n =? 0)%Z
  | Some (VStr s) => default false (ParseBool s)
  | _ => false
  end.

(** [cast.ToString]: [nil], errors and unsupported kinds give [""]. *)
Definition ToString (o : option value) : string :=
  match o with
  | Some (VBool true) => "true"
  | Some (VBool false) => "false"
  | Some (VNum n) => pretty n
  | Some (VStr s) => s
  | _ => ""
  end.

End cast.

Module viper.

(** A flag bound with [BindPFlag]: its current (typed) value and whether
    it was given on the command line. *)
Record Flag : Type := { flagValue : value; flagChanged : bool }.

(** The registry.  Keys are the lower-case dotted keys the program uses;
    [environ] is the process environment the registry reads. *)
Record Viper : Type := {
  pflags : gmap string Flag;
  environ : gmap string string;
  automaticEnvApplied : bool;
  envPrefix : string;
  envKeyReplacer : list (ascii * ascii);
  configFile : string;
  configName : string;
  config : gmap string value;
  defaults : gmap string value
}.

Definition New : Viper :=
  {| pflags := ∅; environ := ∅; automaticEnvApplied := false;
     envPrefix := ""; envKeyReplacer := []; configFile := "";
     configName := "config"; config := ∅; defaults := ∅ |}.

Definition mergeWithEnvPrefix (v : Viper) (key : string) : string :=
  if String.eqb (envPrefix v) "" then Str.ToUpper key
  else Str.ToUpper (envPrefix v +:+ "_" +:+ key).

(** An empty environment variable counts as unset. *)
Definition getEnv (v : Viper) (name : string) : option string :=
  match environ v !! Str.Replace (envKeyReplacer v) name with
  | Some s => if String.eqb s "" then None else Some s
  | None => None
  end.

(** With [AutomaticEnv], every lookup consults the environment. *)
Definition fromEnv (v : Viper) (key : string) : option string :=
  if automaticEnvApplied v then getEnv v (mergeWithEnvPrefix v key)
  else None.

(** Precedence of a lookup: a flag given on the command line, the
    environment, the configuration file, the defaults, and last the
    default value of a bound flag. *)
Definition find (v : Viper) (key : string) : option value :=
  match pflags v !! key with
  | Some {| flagValue := x; flagChanged := true |} => Some x
  | _ =>
    match fromEnv v key with
    | Some s => Some (VStr s)
    | None =>
      match config v !! key with
      | Some x => Some x
      | None =>
        match defaults v !! key with
        | Some x => Some x
        | None => flagValue <$> pflags v !! key
        end
      end
    end
  end.

Definition Get := find.

(** [IsSet]: some layer has a value for the key.  (After [setDefaults]
    every key the program tests with a default is set.) *)
Definition IsSet (v : Viper) (key : string) : bool :=
  bool_decide (is_Some (find v key)).
Definition GetString (v : Viper) (key : string) : string :=
  cast.ToString (find v key).
Definition GetBool (v : Viper) (key : string) : bool :=
  cast.ToBool (find v key).

Definition SetDefault (key : string) (x : value) (v : Viper) : Viper :=
  {| pflags := pflags v; environ := environ v;
     automaticEnvApplied := automaticEnvApplied v;
     envPrefix := envPrefix v; envKeyReplacer := envKeyReplacer v;
     configFile := configFile v; configName := configName v;
     config := config v; defaults := <[key := x]> (defaults v) |}.

Definition SetConfigFile (file : string) (v : Viper) : Viper :=
  {| pflags := pflags v; environ := environ v;
     automaticEnvApplied := automaticEnvApplied v;
     envPrefix := envPrefix v; envKeyReplacer := envKeyReplacer v;
     configFile := if String.eqb file "" then configFile v else file;
     configName := configName v;
     config := config v; defaults := defaults v |}.

Definition SetConfigName (name : string) (v : Viper) : Viper :=
  {| pflags := pflags v; environ := environ v;
     automaticEnvApplied := automaticEnvApplied v;
     envPrefix := envPrefix v; envKeyReplacer := envKeyReplacer v;
     configFile := if String.eqb name "" then configFile v else "";
     configName := if String.eqb name "" then configName v else name;
     config := config v; defaults := defaults v |}.

(** [ReadInConfig]: [fs path] is the parsed content of the file at
    [path], [None] when it cannot be read or parsed.  No search path is
    ever added by the program, so a registry without an explicit file
    finds none. *)
Definition ReadInConfig (fs : string → option (gmap string value))
    (v : Viper) : option Viper :=
  if String.eqb (configFile v) "" then None
  else match fs (configFile v) with
       | Some m =>
           Some {| pflags := pflags v; environ := environ v;
                   automaticEnvApplied := automaticEnvApplied v;
                   envPrefix := envPrefix v;
                   envKeyReplacer := envKeyReplacer v;
                   configFile := configFile v; configName := configName v;
                   config := m; defaults := defaults v |}
       | None => None
       end.

(** [AllKeys]: the keys known from the flags, the file and the defaults
    (the automatic environment contributes values, not keys). *)
Definition AllKeys (v : Viper) : gset string :=
  dom (pflags v) ∪ dom (config v) ∪ dom (defaults v).

(** [AllSettings], flattened: every known key with its value. *)
Definition AllSettings (v : Viper) : gmap string value :=
  set_fold (λ k acc, match find v k with
                     | Some x => <[k := x]> acc
                     | None => acc
                     end) ∅ (AllKeys v).

End viper.

(* ===================================================================== *)
(** * Types of the packages the configuration refers to *)

Module graffiti.

(** Modelled from the spec: the package [pkg/graffiti] is not part of the
    sources at hand; section 3 gives a matcher two selector lists and a
    boolean operator out of AND, OR and XOR. *)
Inductive BooleanOperator : Type := AND | OR | XOR.

Record Matcher : Type := {
  LabelSelectors : list string;
  FieldSelectors : list string;
  BooleanOp : BooleanOperator
}.

(** Modelled from the spec: additions are two ordered mappings from key
    to value, kept in configuration order. *)
Record Additions : Type := {
  Labels : list (string * string);
  Annotations : list (string * string)
}.

End graffiti.

Module webhook.

(** Modelled from the spec: the package [pkg/webhook] is not part of the
    sources at hand; a registration has a name, target resources, a
    failure policy and a namespace selector. *)
Record Registration : Type := {
  Name : string;
  Targets : list string;
  FailurePolicy : string;
  NamespaceSelector : string
}.

End webhook.

(* ===================================================================== *)
(** * Weakly typed decoding, as viper configures [mapstructure] *)

Module mapstructure.

Definition decodeString (x : value) : option string :=
  match x with
  | VStr s => Some s
  | VBool b => Some (if b then "1" else "0")
  | VNum n => Some (pretty n)
  | _ => None
  end.

Definition decodeBool (x : value) : option bool :=
  match x with
  | VBool b => Some b
  | VNum n => Some (negb (n =? 0)%Z)
  | VStr s => match cast.ParseBool s with
              | Some b => Some b
              | None => if String.eqb s "" then Some false else None
              end
  | _ => None
  end.

Section WithParseInt.
(** [strconv.ParseInt s 0 64]. *)
Variable ParseInt : string → option Z.

Definition decodeInt (x : value) : option Z :=
  match x with
  | VNum n => Some n
  | VBool b => Some (if b then 1 else 0)%Z
  | VStr s => ParseInt s
  | _ => None
  end.
End WithParseInt.

(** Decoding one field of a struct from the settings: a missing key
    leaves the zero value, a value of the wrong kind leaves the zero
    value and reports an error. *)
Definition field {A : Type} (zero : A) (dec : value → option A)
    (key : string) (settings : gmap string value) : A * list string :=
  match settings !! key with
  | None => (zero, [])
  | Some x =>
      match dec x with
      | Some a => (a, [])
      | None => (zero, ["'" +:+ key +:+ "' has an unconvertible type"])
      end
  end.

End mapstructure.

(* ===================================================================== *)
(** * [pkg/config/config.go] *)

Module config.

Import graffiti webhook viper.

Definition componentName := "config".
Definition DefaultLogLevel := "info".
Definition defaultConfigPath := "/config".

Record Server : Type := {
  WebhookPort : Z;
  CompanyDomain : string;
  Namespace : string;
  Service : string;
  CACertPath : string;
  ServerCertPath : string;
  ServerKeyPath : string
}.

Record Rule : Type := {
  Registration : webhook.Registration;
  Matcher : graffiti.Matcher;
  Additions : graffiti.Additions
}.

(** The errors the package returns, and their text. *)
Inductive error : Type :=
| ErrUnmarshal (msgs : list string)
| ErrLogLevel (level : string)
| ErrMissingParameter
| ErrNoAdditions (rule : string)
| ErrDuplicateName (rule : string)
| ErrLabelSelector (rule selector msg : string)
| ErrFieldSelector (rule selector msg : string).

Definition Error (e : error) : string :=
  match e with
  | ErrUnmarshal msgs =>
      "Failed to unmarshal configuration: " +:+ String.concat ", " msgs
  | ErrLogLevel level => level +:+ " is not a valid log-level"
  | ErrMissingParameter => "missing required parameter"
  | ErrNoAdditions rule =>
      "rule " +:+ rule +:+
      " is invalid - it does not contain any additional labels or annotations"
  | ErrDuplicateName rule =>
      "rule " +:+ rule +:+
      " is invalid - found duplicate rules with the same name, they must be unique"
  | ErrLabelSelector rule selector msg =>
      "rule " +:+ rule +:+ " is invalid - contains invalid label selector '"
      +:+ selector +:+ "': " +:+ msg
  | ErrFieldSelector rule selector msg =>
      "rule " +:+ rule +:+ " is invalid - contains invalid field selector '"
      +:+ selector +:+ "': " +:+ msg
  end.

(** What a call that may end the process gives back. *)
Inductive outcome (A : Type) : Type :=
| Returned (a : A)
| Exited (code : Z).
Arguments Returned {A} a.
Arguments Exited {A} code.

Definition setDefaults (v : Viper) : Viper :=
  let v := SetDefault "log-level" (VStr DefaultLogLevel) v in
  let v := SetDefault "check-existing" (VBool false) v in
  let v := SetDefault "server.port" (VNum 8443) v in
  let v := SetDefault "health-checker.port" (VNum 8080) v in
  let v := SetDefault "health-checker.path" (VStr "/healthz") v in
  let v := SetDefault "server.company-domain" (VStr "acme.com") v in
  let v := SetDefault "server.ca-cert-path" (VStr "/ca.pem") v in
  let v := SetDefault "server.cert-path" (VStr "/server.pem") v in
  let v := SetDefault "server.cert-path" (VStr "/key.pem") v in
  v.

Section Package.

(** What the package takes from packages that are not at hand. *)
Variable HealthChecker : Type.
Variable decodeHealthChecker :
  gmap string value → HealthChecker * list string.
Variable decodeRules : option value → list Rule * list string.
Variable ParseInt : string → option Z.
Variable LogLevels : gmap string Z.
Variable ValidateLabelSelector : string → option string.
Variable ValidateFieldSelector : string → option string.

Record Configuration : Type := {
  LogLevel : string;
  CheckExisting : bool;
  HealthCheck : HealthChecker;
  ServerConf : Server;
  Rules : list Rule
}.

(** The keys of the settings that [Configuration] and [Server] declare;
    the keys under [health-checker.] belong to [HealthChecker]. *)
Definition declaredKeys : list string :=
  ["log-level"; "check-existing"; "rules"; "server.port";
   "server.company-domain"; "server.namespace"; "server.service";
   "server.ca-cert-path"; "server.cert-path"; "server.key-path"].

Definition unusedKeys (settings : gmap string value) : list string :=
  filter (λ k, (k ∉ declaredKeys) ∧ Str.HasPrefix k "health-checker." = false)
         (elements (dom settings)).

(** [viper.Unmarshal(&c, opts)] with [ErrorUnused]: every field is
    decoded, the errors are collected. *)
Definition Unmarshal (v : Viper) : Configuration * list string :=
  let s := AllSettings v in
  let '(logLevel, e1) := mapstructure.field "" mapstructure.decodeString "log-level" s in
  let '(checkExisting, e2) := mapstructure.field false mapstructure.decodeBool "check-existing" s in
  let '(healthChecker, e3) :=
    decodeHealthChecker (filter (λ kv, Str.HasPrefix kv.1 "health-checker." = true) s) in
  let '(port, e4) := mapstructure.field 0%Z (mapstructure.decodeInt ParseInt) "server.port" s in
  let '(domain, e5) := mapstructure.field "" mapstructure.decodeString "server.company-domain" s in
  let '(namespace, e6) := mapstructure.field "" mapstructure.decodeString "server.namespace" s in
  let '(service, e7) := mapstructure.field "" mapstructure.decodeString "server.service" s in
  let '(caCert, e8) := mapstructure.field "" mapstructure.decodeString "server.ca-cert-path" s in
  let '(cert, e9) := mapstructure.field "" mapstructure.decodeString "server.cert-path" s in
  let '(key, e10) := mapstructure.field "" mapstructure.decodeString "server.key-path" s in
  let '(rules, e11) := decodeRules (s !! "rules") in
  let e12 := match unusedKeys s with
             | [] => []
             | ks => ["has invalid keys: " +:+ String.concat ", " ks]
             end in
  ({| LogLevel := logLevel; CheckExisting := checkExisting;
      HealthCheck := healthChecker;
      ServerConf := {| WebhookPort := port; CompanyDomain := domain;
                       Namespace := namespace; Service := service;
                       CACertPath := caCert; ServerCertPath := cert;
                       ServerKeyPath := key |};
      Rules := rules |},
   (e1 ++ e2 ++ e3 ++ e4 ++ e5 ++ e6 ++ e7 ++ e8 ++ e9 ++ e10 ++ e11 ++ e12)%list).

Definition unmarshalFromViperStrict (v : Viper)
    : Configuration * option error :=
  let '(c, errs) := Unmarshal v in
  match errs with
  | [] => (c, None)
  | _ => (c, Some (ErrUnmarshal errs))
  end.

(** [LoadConfig]: the registry is global state, so the call also gives
    the registry it leaves behind. *)
Definition LoadConfig (fs : string → option (gmap string value))
    (file : string) (v : Viper)
    : outcome (Configuration * option error * Viper) :=
  let v := setDefaults v in
  let v := if negb (String.eqb file "") then SetConfigFile file v
           else SetConfigName defaultConfigPath v in
  match ReadInConfig fs v with
  | None => Exited 1
  | Some v => Returned (unmarshalFromViperStrict v, v)
  end.

Definition validateLogArgs (c : Configuration) : option error :=
  match LogLevels !! LogLevel c with
  | Some _ => None
  | None => Some (ErrLogLevel (LogLevel c))
  end.

Fixpoint requireSet (v : Viper) (params : list string) : option error :=
  match params with
  | [] => None
  | p :: rest =>
      if negb (IsSet v p) then Some ErrMissingParameter
      else requireSet v rest
  end.

Definition validateWebhookArgs (c : Configuration) (v : Viper)
    : option error :=
  requireSet v ["server.namespace"; "server.service"].

(** The first selector of the list that does not validate, with the
    validator's message. *)
Fixpoint firstInvalid (validate : string → option string)
    (selectors : list string) : option (string * string) :=
  match selectors with
  | [] => None
  | selector :: rest =>
      match validate selector with
      | Some err => Some (selector, err)
      | None => firstInvalid validate rest
      end
  end.

(** The body of the loop of [validateRules] for one rule: the error it
    returns, if any. *)
Definition checkRule (existingRuleNames : gmap string bool) (rule : Rule)
    : option error :=
  let name := Name (Registration rule) in
  if (length (Labels (Additions rule)) =? 0)%nat
     && (length (Annotations (Additions rule)) =? 0)%nat
  then Some (ErrNoAdditions name)
  else if bool_decide (is_Some (existingRuleNames !! name))
  then Some (ErrDuplicateName name)
  else
    match firstInvalid ValidateLabelSelector
            (LabelSelectors (Matcher rule)) with
    | Some (selector, err) => Some (ErrLabelSelector name selector err)
    | None =>
        match firstInvalid ValidateFieldSelector
                (FieldSelectors (Matcher rule)) with
        | Some (selector, err) => Some (ErrFieldSelector name selector err)
        | None => None
        end
    end.

Fixpoint validateRulesFrom (existingRuleNames : gmap string bool)
    (rules : list Rule) : option error :=
  match rules with
  | [] => None
  | rule :: rest =>
      match checkRule existingRuleNames rule with
      | Some e => Some e
      | None =>
          validateRulesFrom
            (<[Name (Registration rule) := true]> existingRuleNames) rest
      end
  end.

Definition validateRules (c : Configuration) : option error :=
  validateRulesFrom ∅ (Rules c).

Definition ValidateConfig (c : Configuration) (v : Viper) : option error :=
  match validateLogArgs c with
  | Some err => Some err
  | None =>
      match validateWebhookArgs c v with
      | Some err => Some err
      | None =>
          match validateRules c with
          | Some err => Some err
          | None => None
          end
      end
  end.

End Package.

Arguments LogLevel {HealthChecker} c.
Arguments CheckExisting {HealthChecker} c.
Arguments HealthCheck {HealthChecker} c.
Arguments ServerConf {HealthChecker} c.
Arguments Rules {HealthChecker} c.
Arguments validateLogArgs {HealthChecker} LogLevels c.
Arguments validateWebhookArgs {HealthChecker} c v.
Arguments validateRules {HealthChecker} _ _ c.
Arguments ValidateConfig {HealthChecker} _ _ _ c v.

(** Vocabulary for the properties of the rules. *)
Definition ruleName (r : Rule) : string := Name (Registration r).

Definition noAdditions (r : Rule) : Prop :=
  Labels (Additions r) = [] ∧ Annotations (Additions r) = [].

Definition hasAdditions (r : Rule) : Prop :=
  Labels (Additions r) ≠ [] ∨ Annotations (Additions r) ≠ [].

(** Neither a bound flag nor the environment supplies the key. *)
Definition notOverridden (v : Viper) (key : string) : Prop :=
  pflags v !! key = None ∧ fromEnv v key = None.

End config.

(* ===================================================================== *)
(** * [cmd/command.go] *)

Module cmd.

Import graffiti webhook viper.

Definition DefaultLogLevel := "info".
Definition defaultConfigPath := "/config".
Definition componentName := "cmd".

(** The calls the command makes on the outside world, in the order it
    makes them.  Log lines other than fatal ones are left out. *)
Inductive event : Type :=
| InitLogger (level : string)
| ReadInConfigFile (file : string)
| ChangeLogLevel (level : string)
| InClusterConfig
| NewForConfig
| StartHealthChecker (path : string)
| ReadFile (path : string)
| NewServer (companyDomain namespace service : string)
| AddGraffitiRule (name : string)
| StartWebhookServer (certPath keyPath : string)
| Sleep (seconds : Z)
| RegisterHook (name : string)
| InitKubeClients
| ApplyRulesAgainstExistingObjects (rules : list string)
| WaitForInterrupt
| Panic (msg : string)
| Fatal (msg : string)
| Exit (code : Z).

(** What the outside world answers. *)
Record World : Type := {
  configFiles : string → option (gmap string value);
  files : string → option string;
  inClusterConfig : option string;
  newForConfig : option string;
  registerHook : string → option string;
  initKubeClients : option string
}.

(** The state the command threads: the global registry and the calls made
    so far (oldest first). *)
Record state : Type := { registry : Viper; trace : list event }.

(** A computation either gives a value or ends the process; in both
    cases it leaves a state. *)
Definition M (A : Type) : Type := state → option A * state.

Definition ret {A} (a : A) : M A := λ s, (Some a, s).
Definition bind {A B} (m : M A) (k : A → M B) : M B :=
  λ s, match m s with
       | (Some a, s') => k a s'
       | (None, s') => (None, s')
       end.
Definition emit (e : event) : M unit :=
  λ s, (Some tt, {| registry := registry s; trace := trace s ++ [e] |}).
Definition halt {A} : M A := λ s, (None, s).
Definition read {A} (f : Viper → A) : M A := λ s, (Some (f (registry s)), s).
Definition update (f : Viper → Viper) : M unit :=
  λ s, (Some tt, {| registry := f (registry s); trace := trace s |}).

Notation "'let!' x ':=' m 'in' k" := (bind m (λ x, k))
  (at level 10, x name, m at level 100, k at level 200).
Notation "m ;;; k" := (bind m (λ _, k))
  (at level 100, right associativity).

(** [mylog.Fatal().Err(err).Msg(msg)] ends the process with status 1. *)
Definition fatal {A} (msg : string) : M A :=
  emit (Fatal msg) ;;; emit (Exit 1) ;;; halt.

Fixpoint forEach {A} (l : list A) (body : A → M unit) : M unit :=
  match l with
  | [] => ret tt
  | a :: rest => body a ;;; forEach rest body
  end.

(** [init]: the three flags with their defaults, and the environment
    binding under the prefix GRAFFITI. *)
Definition init (environment : gmap string string) : Viper :=
  {| pflags :=
       {[ "config" := {| flagValue := VStr "/config"; flagChanged := false |};
          "log-level" := {| flagValue := VStr DefaultLogLevel;
                            flagChanged := false |};
          "check-existing" := {| flagValue := VBool false;
                                 flagChanged := false |} ]};
     environ := environment;
     automaticEnvApplied := true;
     envPrefix := "GRAFFITI";
     envKeyReplacer := [("-", "_"); (".", "_")]%char;
     configFile := ""; configName := "config";
     config := ∅; defaults := ∅ |}.

(** A flag given on the command line. *)
Definition setFlag (key : string) (x : value) (v : Viper) : Viper :=
  {| pflags := <[key := {| flagValue := x; flagChanged := true |}]> (pflags v);
     environ := environ v;
     automaticEnvApplied := automaticEnvApplied v;
     envPrefix := envPrefix v; envKeyReplacer := envKeyReplacer v;
     configFile := configFile v; configName := configName v;
     config := config v; defaults := defaults v |}.

Definition setDefaults (v : Viper) : Viper :=
  let v := SetDefault "log-level" (VStr DefaultLogLevel) v in
  let v := SetDefault "check-existing" (VBool false) v in
  let v := SetDefault "server.port" (VNum 8443) v in
  let v := SetDefault "health-checker.port" (VNum 8080) v in
  let v := SetDefault "health-checker.path" (VStr "/healthz") v in
  let v := SetDefault "server.company-domain" (VStr "acme.com") v in
  let v := SetDefault "server.ca-cert-path" (VStr "/ca-cert") v in
  let v := SetDefault "server.cert-path" (VStr "/server-cert") v in
  let v := SetDefault "server.key-path" (VStr "/server-key") v in
  v.

(** The test that both [initExistingCheck] and
    [unmarshalFromViperStrict] make on the setting. *)
Definition checkExistingDisabled (v : Viper) : bool :=
  negb (IsSet v "check-existing")
  || negb (String.eqb (GetString v "check-existing") "true").

Section Command.

Variable HealthChecker : Type.
Variable zeroHealthChecker : HealthChecker.
Variable LogLevels : gmap string Z.
Variable ValidateLabelSelector : string → option string.
Variable ValidateFieldSelector : string → option string.

(** [viper.UnmarshalKey] of the three structured keys, under the decode
    hooks of the command: the decoded value and the error, if any. *)
Variable UnmarshalServer : Viper → config.Server * option string.
Variable UnmarshalHealthCheck : Viper → HealthChecker * option string.
Variable UnmarshalRules : Viper → list config.Rule * option string.

Variable world : World.

Abbreviation Configuration := (config.Configuration HealthChecker).

Definition unmarshalFromViperStrict (v : Viper)
    : Configuration * option string :=
  let c (server : config.Server) (health : HealthChecker)
        (rules : list config.Rule) (level : string) (check : bool) :=
    {| config.LogLevel := level; config.CheckExisting := check;
       config.HealthCheck := health; config.ServerConf := server;
       config.Rules := rules |} in
  let '(server, e1) := UnmarshalServer v in
  match e1 with
  | Some err =>
      (c server zeroHealthChecker [] "" false,
       Some ("failed to unmarshal server: " +:+ err))
  | None =>
    let '(health, e2) := UnmarshalHealthCheck v in
    match e2 with
    | Some err =>
        (c server health [] "" false,
         Some ("failed to unmarshal health-check: " +:+ err))
    | None =>
      let '(rules, e3) := UnmarshalRules v in
      match e3 with
      | Some err =>
          (c server health rules "" false,
           Some ("failed to unmarshal rules: " +:+ err))
      | None =>
          (c server health rules (GetString v "log-level")
             (if checkExistingDisabled v then false else true), None)
      end
    end
  end.

Definition loadConfig (file : string) : M (Configuration * option string) :=
  update setDefaults ;;;
  update (if negb (String.eqb file "") then SetConfigFile file
          else SetConfigName defaultConfigPath) ;;;
  let! f := read configFile in
  emit (ReadInConfigFile f) ;;;
  let! v := read id in
  match ReadInConfig (configFiles world) v with
  | None => emit (Exit 1) ;;; halt
  | Some v' =>
      update (λ _, v') ;;;
      ret (unmarshalFromViperStrict v')
  end.

Definition getKubeClients : M unit :=
  emit InClusterConfig ;;;
  match inClusterConfig world with
  | Some err => emit (Panic err) ;;; halt
  | None =>
      emit NewForConfig ;;;
      match newForConfig world with
      | Some err => emit (Panic err) ;;; halt
      | None => ret tt
      end
  end.

(** The loop that registers the rules with the API server: it returns
    at the first failure. *)
Fixpoint registerRules (rules : list config.Rule) : M (option string) :=
  match rules with
  | [] => ret None
  | rule :: rest =>
      let name := Name (config.Registration rule) in
      emit (RegisterHook name) ;;;
      match registerHook world name with
      | Some err => ret (Some err)
      | None => registerRules rest
      end
  end.

(** The rule handed to [AddGraffitiRule] carries the name, the matchers
    and the payload of the configured rule; the call is recorded by the
    name. *)
Definition initWebhookServer (c : Configuration) : M (option string) :=
  let! caPath := read (λ v, GetString v "server.ca-cert-path") in
  emit (ReadFile caPath) ;;;
  match files world caPath with
  | None => ret (Some "failed to load ca from file")
  | Some ca =>
      let! domain := read (λ v, GetString v "server.company-domain") in
      let! namespace := read (λ v, GetString v "server.namespace") in
      let! service := read (λ v, GetString v "server.service") in
      emit (NewServer domain namespace service) ;;;
      forEach (config.Rules c)
        (λ rule, emit (AddGraffitiRule (Name (config.Registration rule)))) ;;;
      let! certPath := read (λ v, GetString v "server.cert-path") in
      let! keyPath := read (λ v, GetString v "server.key-path") in
      emit (StartWebhookServer certPath keyPath) ;;;
      emit (Sleep 2) ;;;
      registerRules (config.Rules c)
  end.

Definition initExistingCheck (c : Configuration) : M (option string) :=
  let! disabled := read checkExistingDisabled in
  if disabled then ret None
  else
    emit InitKubeClients ;;;
    match initKubeClients world with
    | Some err => ret (Some err)
    | None =>
        emit (ApplyRulesAgainstExistingObjects
                (map (λ rule, Name (config.Registration rule))
                     (config.Rules c))) ;;;
        ret None
    end.

Definition initRootCmd : M unit :=
  let! level := read (λ v, GetString v "log-level") in
  emit (InitLogger level).

Definition runRootCmd : M unit :=
  let! file := read (λ v, GetString v "config") in
  let! loaded := loadConfig file in
  let '(c, err) := loaded in
  match err with
  | Some _ => fatal "failed to load config"
  | None =>
    let! level := read (λ v, GetString v "log-level") in
    emit (ChangeLogLevel level) ;;;
    let! v := read id in
    match config.ValidateConfig LogLevels
            ValidateLabelSelector ValidateFieldSelector c v with
    | Some _ => fatal "failed to validate config"
    | None =>
      getKubeClients ;;;
      let! path := read (λ v, GetString v "health-checker.path") in
      emit (StartHealthChecker path) ;;;
      let! r := initWebhookServer c in
      match r with
      | Some _ => fatal "webhook server failed to start"
      | None =>
        let! r := initExistingCheck c in
        match r with
        | Some _ => fatal "failed to check existing namespaces"
        | None =>
            emit WaitForInterrupt ;;;
            emit (Exit 0) ;;;
            halt
        end
      end
    end
  end.

(** The whole run of the command from a registry: the calls made. *)
Definition run (v : Viper) : list event :=
  trace (snd ((initRootCmd ;;; runRootCmd)
                {| registry := v; trace := [] |})).

End Command.

Arguments initExistingCheck {HealthChecker} world c.
Arguments initWebhookServer {HealthChecker} world c.

(** Vocabulary for the properties of a run. *)
Definition isApplier (e : event) : bool :=
  match e with
  | ApplyRulesAgainstExistingObjects _ => true
  | _ => false
  end.

Definition isServerStart (e : event) : bool :=
  match e with
  | StartWebhookServer _ _ => true
  | _ => false
  end.

Definition applierRuns (t : list event) : bool := existsb isApplier t.

(** Neither a call of the applier nor the start of the server. *)
Definition quiet (e : event) : Prop :=
  isApplier e = false ∧ isServerStart e = false.

(** The calls made before the first one that satisfies [p]; [None] when
    there is no such call. *)
Fixpoint eventsBefore (p : event → bool) (t : list event)
    : option (list event) :=
  match t with
  | [] => None
  | e :: rest =>
      if p e then Some [] else cons e <$> eventsBefore p rest
  end.

(** The calls [initExistingCheck] makes from a registry. *)
Definition existingCheckCalls {HealthChecker : Type} (world : World)
    (c : config.Configuration HealthChecker) (v : Viper) : list event :=
  trace (initExistingCheck world c {| registry := v; trace := [] |}).2.

Definition extend (s : state) (events : list event) : state :=
  {| registry := registry s; trace := trace s ++ events |}.

End cmd.

(* ===================================================================== *)
(** * JSON-Patch over the document tree (RFC 6901, RFC 6902)

    The platform applies the patches the engine returns; the properties of
    the specification that speak of applying a patch are stated against
    this application. *)

Module jsonpatch.

Inductive opkind : Type := Add | Replace.

Record operation : Type := { op : opkind; path : string; val : value }.

(** Escaping of a reference token: [~] becomes [~0], [/] becomes [~1]. *)
Fixpoint escape (s : string) : string :=
  match s with
  | EmptyString => EmptyString
  | String c r =>
      if Ascii.eqb c "~" then String "~" (String "0" (escape r))
      else if Ascii.eqb c "/" then String "~" (String "1" (escape r))
      else String c (escape r)
  end.

Fixpoint unescape (s : string) : string :=
  match s with
  | EmptyString => EmptyString
  | String c r =>
      if Ascii.eqb c "~" then
        match r with
        | String "0" r' => String "~" (unescape r')
        | String "1" r' => String "/" (unescape r')
        | _ => String c (unescape r)
        end
      else String c (unescape r)
  end.

(** The pieces of a string between its slashes. *)
Fixpoint split_slash (s : string) : list string :=
  match s with
  | EmptyString => [EmptyString]
  | String c r =>
      if Ascii.eqb c "/" then EmptyString :: split_slash r
      else match split_slash r with
           | t :: ts => String c t :: ts
           | [] => [String c EmptyString]
           end
  end.

(** A pointer is empty (the whole document) or a sequence of tokens each
    introduced by a slash. *)
Definition parse_pointer (p : string) : option (list string) :=
  match p with
  | EmptyString => Some []
  | String c r =>
      if Ascii.eqb c "/" then Some (map unescape (split_slash r)) else None
  end.

(** Members of a mapping: the first entry with the key counts. *)
Fixpoint alookup (k : string) (m : list (string * value)) : option value :=
  match m with
  | [] => None
  | (k', x) :: r => if String.eqb k' k then Some x else alookup k r
  end.

Fixpoint aset (k : string) (x : value) (m : list (string * value))
    : list (string * value) :=
  match m with
  | [] => [(k, x)]
  | (k', y) :: r =>
      if String.eqb k' k then (k, x) :: r else (k', y) :: aset k x r
  end.

Fixpoint get (tokens : list string) (d : value) : option value :=
  match tokens with
  | [] => Some d
  | t :: ts =>
      match d with
      | VMap m => match alookup t m with
                  | Some child => get ts child
                  | None => None
                  end
      | _ => None
      end
  end.

(** Writing [x] at a location.  Every token but the last must lead to an
    existing mapping; the last names the member written.  With
    [must_exist] the member has to be there already ([replace]);
    otherwise it is created or overwritten ([add]).  A location inside
    anything but a mapping is an error. *)
Fixpoint put (must_exist : bool) (tokens : list string) (x d : value)
    : option value :=
  match tokens with
  | [] => Some x
  | t :: ts =>
      match d with
      | VMap m =>
          match ts with
          | [] =>
              if must_exist && negb (bool_decide (is_Some (alookup t m)))
              then None
              else Some (VMap (aset t x m))
          | _ :: _ =>
              match alookup t m with
              | Some child =>
                  match put must_exist ts x child with
                  | Some child' => Some (VMap (aset t child' m))
                  | None => None
                  end
              | None => None
              end
          end
      | _ => None
      end
  end.

Definition apply_operation (o : operation) (d : value) : option value :=
  match parse_pointer (path o) with
  | Some tokens =>
      put (match op o with Add => false | Replace => true end)
          tokens (val o) d
  | None => None
  end.

Fixpoint apply_patch (ops : list operation) (d : value) : option value :=
  match ops with
  | [] => Some d
  | o :: rest =>
      match apply_operation o d with
      | Some d' => apply_patch rest d'
      | None => None
      end
  end.

End jsonpatch.

(* ===================================================================== *)
(** * The rule engine

    Modelled from the spec: the package [pkg/graffiti] (matcher, patch
    synthesizer and rule engine) is not part of the sources at hand; the
    definitions below follow sections 4.2, 4.3 and 4.4 of the
    specification. *)

Module engine.

Import graffiti jsonpatch.

(** The rule as [initWebhookServer] hands it to the server. *)
Record Rule : Type := {
  Name : string;
  Matchers : graffiti.Matcher;
  Payload : graffiti.Additions
}.

(** The result of the synthesizer and of the engine: the empty-patch
    sentinel, or a patch with at least one operation. *)
Inductive result : Type :=
| NoChange
| Patch (ops : list operation).

Definition operations (r : result) : list operation :=
  match r with
  | NoChange => []
  | Patch ops => ops
  end.

(** ** Matcher (section 4.2) *)

Definition combine (operator : BooleanOperator) (results : list bool) : bool :=
  match operator with
  | AND => forallb id results
  | OR => existsb id results
  | XOR => Nat.odd (length (filter (λ b, b = true) results))
  end.

(** ** Patch synthesizer (section 4.3) *)

Definition labelsPath := "/metadata/labels".
Definition annotationsPath := "/metadata/annotations".

Definition keyPath (base key : string) : string :=
  base +:+ "/" +:+ escape key.

Definition submapValue (desired : list (string * string)) : value :=
  VMap (map (λ kv, (kv.1, VStr kv.2)) desired).

(** Rule 1: the submap is missing and something is desired in it.
    (A submap in which nothing is desired gives no operation: scenario
    S1 expects none for the annotations.) *)
Definition parentOps (base : string) (current : option (list (string * value)))
    (desired : list (string * string)) : list operation :=
  match current, desired with
  | None, _ :: _ => [{| op := Add; path := base; val := submapValue desired |}]
  | _, _ => []
  end.

(** Rule 2, first case: the key is absent. *)
Definition addOps (base : string) (current : option (list (string * value)))
    (desired : list (string * string)) : list operation :=
  match current with
  | None => []
  | Some m =>
      flat_map (λ kv,
        match alookup kv.1 m with
        | None => [{| op := Add; path := keyPath base kv.1; val := VStr kv.2 |}]
        | Some _ => []
        end) desired
  end.

(** Whether a member of the object is the string [v]. *)
Definition sameValue (x : value) (v : string) : bool :=
  match x with
  | VStr s => String.eqb s v
  | _ => false
  end.

(** Rule 2, third case: the key is present with a different value. *)
Definition replaceOps (base : string) (current : option (list (string * value)))
    (desired : list (string * string)) : list operation :=
  match current with
  | None => []
  | Some m =>
      flat_map (λ kv,
        match alookup kv.1 m with
        | Some x =>
            if sameValue x kv.2 then []
            else [{| op := Replace; path := keyPath base kv.1;
                     val := VStr kv.2 |}]
        | None => []
        end) desired
  end.

(** Rules 3 and 5: creations, then additions, then replaces; no
    operation at all gives the sentinel. *)
Definition Synthesize (labels annotations : option (list (string * value)))
    (additions : Additions) : result :=
  match parentOps labelsPath labels (Labels additions)
        ++ parentOps annotationsPath annotations (Annotations additions)
        ++ addOps labelsPath labels (Labels additions)
        ++ addOps annotationsPath annotations (Annotations additions)
        ++ replaceOps labelsPath labels (Labels additions)
        ++ replaceOps annotationsPath annotations (Annotations additions)
  with
  | [] => NoChange
  | ops => Patch ops
  end%list.

(** The submap of the object's metadata under [name], when it is a
    mapping. *)
Definition submap (name : string) (object : value)
    : option (list (string * value)) :=
  match get ["metadata"; name] object with
  | Some (VMap m) => Some m
  | _ => None
  end.

Section Engine.

(** The selector evaluator (section 4.1) is taken as given: whether a
    label selector, respectively a field selector, matches an object. *)
Variable labelSelectorMatches : string → value → bool.
Variable fieldSelectorMatches : string → value → bool.

Definition matches (m : Matcher) (object : value) : bool :=
  combine (BooleanOp m)
    (map (λ s, labelSelectorMatches s object) (LabelSelectors m)
     ++ map (λ s, fieldSelectorMatches s object) (FieldSelectors m)).

(** ** Rule engine (section 4.4) *)
Definition Engine (r : Rule) (object : value) : result :=
  if matches (Matchers r) object
  then Synthesize (submap "labels" object) (submap "annotations" object)
                  (Payload r)
  else NoChange.

End Engine.

(** Applying the result of the engine to an object. *)
Definition apply (r : result) (object : value) : option value :=
  apply_patch (operations r) object.

(** ** Vocabulary for the properties of the synthesizer *)

(** The operations section 4.3 asks for, for one submap: rule 1 and the
    three cases of rule 2. *)
Inductive emitted (base : string) (current : option (list (string * value)))
    (desired : list (string * string)) : operation → Prop :=
| emitted_parent :
    current = None → desired ≠ [] →
    emitted base current desired
      {| op := Add; path := base; val := submapValue desired |}
| emitted_add (m : list (string * value)) (k v : string) :
    current = Some m → (k, v) ∈ desired → alookup k m = None →
    emitted base current desired
      {| op := Add; path := keyPath base k; val := VStr v |}
| emitted_replace (m : list (string * value)) (k v : string) (x : value) :
    current = Some m → (k, v) ∈ desired → alookup k m = Some x →
    sameValue x v = false →
    emitted base current desired
      {| op := Replace; path := keyPath base k; val := VStr v |}.

(** The object has the key with the value in the submap. *)
Definition holds (name k v : string) (object : value) : Prop :=
  ∃ m, submap name object = Some m ∧ alookup k m = Some (VStr v).

Definition hasMetadata (object : value) : Prop :=
  ∃ meta, get ["metadata"] object = Some (VMap meta).

(** The submap found at the start is still a mapping and has kept its
    keys. *)
Definition ready (name : string) (current : option (list (string * value)))
    (object : value) : Prop :=
  match current with
  | None => True
  | Some m =>
      ∃ m', submap name object = Some m'
            ∧ ∀ k, is_Some (alookup k m) → is_Some (alookup k m')
  end.

(** The operation, wherever it applies, leaves the submap as it is (and
    the metadata a mapping). *)
Definition leaves (name : string) (o : operation) : Prop :=
  ∀ object object',
    apply_operation o object = Some object' →
    get ["metadata"; name] object' = get ["metadata"; name] object
    ∧ hasMetadata object'.

(** The operation gives the key its desired value: it creates the whole
    submap, or writes the key. *)
Definition settles (base : string) (desired : list (string * string))
    (k v : string) (o : operation) : Prop :=
  o = {| op := Add; path := base; val := submapValue desired |}
  ∨ ∃ kind, o = {| op := kind; path := keyPath base k; val := VStr v |}.

(** Rule 4 in the words of the specification: every [~] of the key is
    written [~0] and every [/] is written [~1]. *)
Fixpoint replaceAll (c : ascii) (by_ : string) (s : string) : string :=
  match s with
  | EmptyString => EmptyString
  | String a r =>
      if Ascii.eqb a c then by_ +:+ replaceAll c by_ r
      else String a (replaceAll c by_ r)
  end.

Definition escapedKey (k : string) : string :=
  replaceAll "/" "~1" (replaceAll "~" "~0" k).

(** The per-key path the specification writes
    [/metadata/labels/<escaped-key>]. *)
Definition perKeyPath (base k : string) : string :=
  base +:+ "/" +:+ escapedKey k.

(** The operations of a patch at the per-key path of a key, in the order
    and with the multiplicity they have in the patch. *)
Definition atKey (base k : string) (ops : list operation) : list operation :=
  filter (λ o, path o = perKeyPath base k) ops.

(** The three cases of rule 2 for one desired key of a submap that has
    the members [m], in a patch: what the patch has at the per-key path
    is exactly one [add], nothing, or exactly one [replace]; the patch
    has no operation on the submap as a whole; and whatever it has under
    the submap is at the per-key path of a desired key, with the desired
    value. *)
Definition perKey (base : string) (desired : list (string * string))
    (m : list (string * value)) (k v : string)
    (ops : list operation) : Prop :=
  (alookup k m = None →
   atKey base k ops
   = [{| op := Add; path := perKeyPath base k; val := VStr v |}])
  ∧ (alookup k m = Some (VStr v) → atKey base k ops = [])
  ∧ (∀ x, alookup k m = Some x → x ≠ VStr v →
     atKey base k ops
     = [{| op := Replace; path := perKeyPath base k; val := VStr v |}])
  ∧ (∀ o, o ∈ ops → path o ≠ base)
  ∧ (∀ o, o ∈ ops → Str.HasPrefix (path o) base = true →
     ∃ k' v', (k', v') ∈ desired ∧ path o = perKeyPath base k'
              ∧ val o = VStr v').

(** The keys of a mapping in configuration order are pairwise distinct. *)
Definition wellFormed (additions : Additions) : Prop :=
  NoDup (map fst (Labels additions)) ∧ NoDup (map fst (Annotations additions)).

End engine.

(* ===================================================================== *)
(** * Concrete inputs used to exercise the definitions *)

Module sample.

Import graffiti webhook viper.

(** The levels the help text of the [log-level] flag lists. *)
Definition LogLevels : gmap string Z :=
  {[ "debug" := 0%Z; "info" := 1%Z; "warn" := 2%Z; "error" := 3%Z;
     "fatal" := 4%Z; "panic" := 5%Z ]}.

(** Selector validation that accepts everything but the empty selector
    [","]. *)
Definition ValidateSelector (s : string) : option string :=
  if String.eqb s "," then Some "found ',', expected: identifier" else None.

Definition rule (name : string) (labels annotations : list (string * string))
    : config.Rule :=
  {| config.Registration :=
       {| Name := name; Targets := ["namespaces"]; FailurePolicy := "Ignore";
          NamespaceSelector := "" |};
     config.Matcher :=
       {| LabelSelectors := []; FieldSelectors := []; BooleanOp := AND |};
     config.Additions := {| Labels := labels; Annotations := annotations |} |}.

Definition configuration (level : string) (rules : list config.Rule)
    : config.Configuration unit :=
  {| config.LogLevel := level; config.CheckExisting := false;
     config.HealthCheck := tt;
     config.ServerConf :=
       {| config.WebhookPort := 8443; config.CompanyDomain := "acme.com";
          config.Namespace := "kube-graffiti";
          config.Service := "kube-graffiti";
          config.CACertPath := "/tls/ca-cert";
          config.ServerCertPath := "/tls/server-cert";
          config.ServerKeyPath := "/tls/server-key" |};
     config.Rules := rules |}.

(** A configuration file as the chart renders it. *)
Definition file : gmap string value :=
  {[ "log-level" := VStr "info";
     "server.namespace" := VStr "kube-graffiti";
     "server.service" := VStr "kube-graffiti";
     "server.ca-cert-path" := VStr "/tls/ca-cert" ]}.

(** The same file without the namespace of the service. *)
Definition fileWithoutNamespace : gmap string value :=
  {[ "log-level" := VStr "info";
     "server.service" := VStr "kube-graffiti" ]}.

Definition configFiles (path : string) : option (gmap string value) :=
  if String.eqb path "/config/graffiti-config.yaml" then Some file
  else if String.eqb path "/config/incomplete.yaml"
       then Some fileWithoutNamespace
       else None.

(** A registry that has read [file]. *)
Definition registry : Viper :=
  default New (ReadInConfig configFiles
                 (SetConfigFile "/config/graffiti-config.yaml" New)).

(** A world in which every outside call succeeds. *)
Definition world : cmd.World :=
  {| cmd.configFiles := configFiles;
     cmd.files := λ path, if String.eqb path "/tls/ca-cert"
                          then Some "-----BEGIN CERTIFICATE-----" else None;
     cmd.inClusterConfig := None;
     cmd.newForConfig := None;
     cmd.registerHook := λ _, None;
     cmd.initKubeClients := None |}.

(** The registry of the command as deployed: the environment of the
    deployment manifest, with [GRAFFITI_CHECK_EXISTING] as given. *)
Definition deployed (checkExisting : string) : Viper :=
  cmd.init {[ "GRAFFITI_LOG_LEVEL" := "debug";
              "GRAFFITI_CHECK_EXISTING" := checkExisting;
              "GRAFFITI_CONFIG" := "/config/graffiti-config.yaml" ]}.

(** Decoding of the structured keys for the runs below: the two rules of
    the sample deployment, whatever the file says. *)
Definition rules : list config.Rule :=
  [rule "add-owner" [("owner", "platform")] [];
   rule "add-contact" [] [("contact", "ops@acme.com")]].

Definition UnmarshalServer (v : Viper) : config.Server * option string :=
  ({| config.WebhookPort := 8443;
      config.CompanyDomain := GetString v "server.company-domain";
      config.Namespace := GetString v "server.namespace";
      config.Service := GetString v "server.service";
      config.CACertPath := GetString v "server.ca-cert-path";
      config.ServerCertPath := GetString v "server.cert-path";
      config.ServerKeyPath := GetString v "server.key-path" |}, None).

Definition run (v : Viper) : list cmd.event :=
  cmd.run unit tt LogLevels ValidateSelector ValidateSelector
    UnmarshalServer (λ _, (tt, None)) (λ _, (rules, None)) world v.

(** Objects and rules of the scenarios of section 8. *)
Definition matchAll : graffiti.Matcher :=
  {| LabelSelectors := []; FieldSelectors := []; BooleanOp := AND |}.

Definition engineRule (labels annotations : list (string * string))
    : engine.Rule :=
  {| engine.Name := "sample"; engine.Matchers := matchAll;
     engine.Payload := {| Labels := labels; Annotations := annotations |} |}.

Definition selectorMatches (selector : string) (object : value) : bool := true.

Definition Engine : engine.Rule → value → engine.result :=
  engine.Engine selectorMatches selectorMatches.

Definition bareObject : value :=
  VMap [("metadata", VMap [("name", VStr "x")]); ("spec", VMap [])].

Definition labelledObject : value :=
  VMap [("metadata",
         VMap [("name", VStr "x");
               ("labels", VMap [("a", VStr "old"); ("b", VStr "keep")]);
               ("annotations", VMap [("z", VStr "1")])])].

Definition registryWithoutNamespace : Viper :=
  default New (ReadInConfig configFiles
                 (SetConfigFile "/config/incomplete.yaml" New)).

End sample.

(* ===================================================================== *)
(** * Further vocabulary for the properties of the two packages *)

Module terms.

Import graffiti webhook viper.

Section Rules.

Variable ValidateLabelSelector : string → option string.
Variable ValidateFieldSelector : string → option string.

(** Every selector of the rule validates. *)
Definition selectorsValid (r : config.Rule) : Prop :=
  (∀ s, s ∈ LabelSelectors (config.Matcher r) → ValidateLabelSelector s = None)
  ∧ (∀ s, s ∈ FieldSelectors (config.Matcher r) →
          ValidateFieldSelector s = None).

(** What in a rule set an error of [validateRules] points at. *)
Definition explains (rules : list config.Rule) (e : config.error) : Prop :=
  match e with
  | config.ErrNoAdditions n =>
      ∃ r, r ∈ rules ∧ config.ruleName r = n ∧ config.noAdditions r
  | config.ErrDuplicateName n =>
      ∃ i j r1 r2,
        i < j ∧ rules !! i = Some r1 ∧ rules !! j = Some r2
        ∧ config.ruleName r1 = n ∧ config.ruleName r2 = n
  | config.ErrLabelSelector n selector msg =>
      ∃ r, r ∈ rules ∧ config.ruleName r = n
           ∧ selector ∈ LabelSelectors (config.Matcher r)
           ∧ ValidateLabelSelector selector = Some msg
  | config.ErrFieldSelector n selector msg =>
      ∃ r, r ∈ rules ∧ config.ruleName r = n
           ∧ selector ∈ FieldSelectors (config.Matcher r)
           ∧ ValidateFieldSelector selector = Some msg
  | _ => False
  end.

End Rules.

(** The string fields of [Server] with their keys. *)
Definition serverStringFields : list (string * (config.Server → string)) :=
  [("server.company-domain", config.CompanyDomain);
   ("server.namespace", config.Namespace);
   ("server.service", config.Service);
   ("server.ca-cert-path", config.CACertPath);
   ("server.cert-path", config.ServerCertPath);
   ("server.key-path", config.ServerKeyPath)].

(** The registry [loadConfig] of the command reads the file with: the
    defaults are set and the file named by the [config] setting is
    selected. *)
Definition prepared (v : Viper) : Viper :=
  let file := GetString v "config" in
  (if negb (String.eqb file "") then SetConfigFile file
   else SetConfigName cmd.defaultConfigPath) (cmd.setDefaults v).

(** The calls of the registration loop and what it returns, as a function
    of the answers of the API server. *)
Fixpoint registration (world : cmd.World) (rules : list config.Rule)
    : list cmd.event * option string :=
  match rules with
  | [] => ([], None)
  | rule :: rest =>
      match cmd.registerHook world (config.ruleName rule) with
      | Some err => ([cmd.RegisterHook (config.ruleName rule)], Some err)
      | None =>
          let '(calls, r) := registration world rest in
          (cmd.RegisterHook (config.ruleName rule) :: calls, r)
      end
  end.

(** The calls of the server phase once the CA is read: the server is
    created, every rule is added, the server is started, and after two
    seconds the hooks are registered. *)
Definition serving {HealthChecker : Type} (world : cmd.World)
    (c : config.Configuration HealthChecker) (v : Viper) : list cmd.event :=
  [cmd.NewServer (GetString v "server.company-domain")
     (GetString v "server.namespace") (GetString v "server.service")]
  ++ map (λ rule, cmd.AddGraffitiRule (config.ruleName rule)) (config.Rules c)
  ++ [cmd.StartWebhookServer (GetString v "server.cert-path")
        (GetString v "server.key-path"); cmd.Sleep 2]
  ++ (registration world (config.Rules c)).1.

(** Calls that touch the cluster or serve traffic. *)
Definition reachesCluster (e : cmd.event) : bool :=
  match e with
  | cmd.InClusterConfig | cmd.NewForConfig | cmd.StartHealthChecker _
  | cmd.ReadFile _ | cmd.NewServer _ _ _ | cmd.AddGraffitiRule _
  | cmd.StartWebhookServer _ _ | cmd.Sleep _ | cmd.RegisterHook _
  | cmd.InitKubeClients | cmd.ApplyRulesAgainstExistingObjects _
  | cmd.WaitForInterrupt => true
  | _ => false
  end.

(** Calls that end the process. *)
Definition terminal (e : cmd.event) : bool :=
  match e with
  | cmd.Exit _ | cmd.Panic _ => true
  | _ => false
  end.

(** The rules added to the server, and the hooks registered, in order. *)
Definition rulesAdded (t : list cmd.event) : list string :=
  omap (λ e, match e with cmd.AddGraffitiRule n => Some n | _ => None end) t.

Definition hooksRegistered (t : list cmd.event) : list string :=
  omap (λ e, match e with cmd.RegisterHook n => Some n | _ => None end) t.

Arguments serving : simpl never.

(** Further sample inputs: a file with a misspelt key. *)
Definition fileWithMisspeltKey : gmap string value :=
  {[ "log-level" := VStr "info";
     "server.namespac" := VStr "kube-graffiti";
     "server.service" := VStr "kube-graffiti" ]}.

Definition moreFiles (path : string) : option (gmap string value) :=
  if String.eqb path "/config/misspelt.yaml" then Some fileWithMisspeltKey
  else sample.configFiles path.

(** A world in which the API server refuses the hook of one rule. *)
Definition worldRefusing (name : string) : cmd.World :=
  {| cmd.configFiles := sample.configFiles;
     cmd.files := cmd.files sample.world;
     cmd.inClusterConfig := None;
     cmd.newForConfig := None;
     cmd.registerHook := λ n, if String.eqb n name
                              then Some "admission registration refused"
                              else None;
     cmd.initKubeClients := None |}.

(** The registry of the command started with only [GRAFFITI_CONFIG]. *)
Definition startedWith (file : string) : Viper :=
  cmd.init {[ "GRAFFITI_CONFIG" := file ]}.

End terms.

(* ===================================================================== *)
(** * Proof automation *)

(** Traces built by appending: every part is free of some kind of call. *)
Ltac no_applier :=
  repeat match goal with
         | |- Forall _ (_ ++ _) => apply Forall_app; split
         | |- Forall _ (_ :: _) => constructor
         | |- Forall _ [] => constructor
         | |- _ => done
         end.

(** The last element of a trace that ends in a known call. *)
Ltac trace_last :=
  cbn beta iota;
  repeat first [ rewrite last_app_cons
               | rewrite last_cons_cons
               | rewrite app_comm_cons ];
  rewrite ?last_singleton.

(** Membership in a trace, part by part. *)
Ltac trace_mem H :=
  repeat first [ apply elem_of_app in H as [H|H]
               | apply elem_of_cons in H as [H|H]
               | apply elem_of_nil in H; destruct H ].

(* ===================================================================== *)
(** * Properties of the registry *)

Module viper_facts.

Import viper.

Lemma AllSettings_lookup (v : Viper) (k : string) :
  AllSettings v !! k = if decide (k ∈ AllKeys v) then find v k else None.
Proof.
  unfold AllSettings. revert k. generalize (AllKeys v). intros keys.
  refine (set_fold_ind_L
            (λ acc X, ∀ k, acc !! k =
                           if decide (k ∈ X) then find v k else None)
            _ _ _ _ keys).
  - intros k. rewrite lookup_empty. by rewrite decide_False by set_solver.
  - intros x X acc Hx IH k.
    destruct (decide (k = x)) as [->|Hne].
    + rewrite decide_True by set_solver.
      destruct (find v x) eqn:Hf.
      * by rewrite lookup_insert_eq.
      * rewrite IH. by rewrite decide_False.
    + assert (acc !! k =
              if decide (k ∈ {[x]} ∪ X) then find v k else None) as Hacc.
      { rewrite IH. destruct (decide (k ∈ X)).
        - by rewrite decide_True by set_solver.
        - by rewrite decide_False by set_solver. }
      destruct (find v x); [|done].
      by rewrite lookup_insert_ne.
Qed.

(** A key that no layer knows is not among the settings. *)
Lemma AllSettings_unknown (v : Viper) (k : string) :
  find v k = None → AllSettings v !! k = None.
Proof.
  intros Hf. rewrite AllSettings_lookup, Hf. by destruct (decide _).
Qed.

(** A key with a default and no stronger source has the default. *)
Lemma AllSettings_default (v : Viper) (k : string) (x : value) :
  pflags v !! k = None → fromEnv v k = None → config v !! k = None →
  defaults v !! k = Some x →
  AllSettings v !! k = Some x.
Proof.
  intros Hp He Hc Hd. rewrite AllSettings_lookup.
  rewrite decide_True.
  - unfold find. by rewrite Hp, He, Hc, Hd.
  - unfold AllKeys. apply elem_of_union_r, elem_of_dom. by eexists.
Qed.

End viper_facts.

(* ===================================================================== *)
(** * Properties of [pkg/config/config.go] *)

Module config_facts.

Import graffiti webhook viper config.

Section Facts.

Variable HealthChecker : Type.
Variable decodeHealthChecker :
  gmap string value → HealthChecker * list string.
Variable decodeRules : option value → list Rule * list string.
Variable ParseInt : string → option Z.
Variable LogLevels : gmap string Z.
Variable ValidateLabelSelector : string → option string.
Variable ValidateFieldSelector : string → option string.

Abbreviation Configuration := (Configuration HealthChecker).
Abbreviation checkRule :=
  (checkRule ValidateLabelSelector ValidateFieldSelector).
Abbreviation validateRulesFrom :=
  (validateRulesFrom ValidateLabelSelector ValidateFieldSelector).
Abbreviation validateRules :=
  (@config.validateRules HealthChecker
     ValidateLabelSelector ValidateFieldSelector).
Abbreviation ValidateConfig :=
  (@config.ValidateConfig HealthChecker LogLevels
     ValidateLabelSelector ValidateFieldSelector).

(** ** The loop of [validateRules] *)

Lemma checkRule_noAdditions names r :
  noAdditions r → checkRule names r = Some (ErrNoAdditions (ruleName r)).
Proof.
  intros [Hl Ha]. unfold config.checkRule. by rewrite Hl, Ha.
Qed.

Lemma checkRule_known names r :
  is_Some (names !! ruleName r) → is_Some (checkRule names r).
Proof.
  intros Hin. unfold config.checkRule.
  destruct (_ && _); [by eexists|].
  rewrite bool_decide_eq_true_2 by done. by eexists.
Qed.

Lemma checkRule_hasAdditions names r n :
  hasAdditions r → checkRule names r ≠ Some (ErrNoAdditions n).
Proof.
  intros Hne. unfold config.checkRule, hasAdditions in *.
  destruct (Labels (Additions r)) as [|? ?] eqn:Hl;
    destruct (Annotations (Additions r)) as [|? ?] eqn:Ha; simpl;
    try (exfalso; by destruct Hne);
    repeat case_match; congruence.
Qed.

Lemma checkRule_fresh names r n :
  names !! ruleName r = None → checkRule names r ≠ Some (ErrDuplicateName n).
Proof.
  intros Hfresh. unfold config.checkRule.
  destruct (_ && _); [congruence|].
  rewrite bool_decide_eq_false_2
    by (unfold ruleName in Hfresh; rewrite Hfresh; by intros [? ?]).
  repeat case_match; congruence.
Qed.

Lemma validateRulesFrom_app names pre post :
  validateRulesFrom names (pre ++ post) =
  match validateRulesFrom names pre with
  | Some e => Some e
  | None =>
      validateRulesFrom
        (foldl (λ acc r, <[ruleName r := true]> acc) names pre) post
  end.
Proof.
  revert names. induction pre as [|r pre IH]; intros names; simpl; [done|].
  destruct (checkRule names r); [done|]. apply IH.
Qed.

(** A rule whose name was seen before, or that has no additions, makes
    the loop fail wherever it stands. *)
Lemma validateRulesFrom_rejects names rules r :
  r ∈ rules →
  is_Some (names !! ruleName r) ∨ noAdditions r →
  is_Some (validateRulesFrom names rules).
Proof.
  revert names. induction rules as [|a rules IH]; intros names Hin Hbad.
  { by apply elem_of_nil in Hin. }
  simpl. destruct (checkRule names a) eqn:Hcheck; [by eexists|].
  apply elem_of_cons in Hin as [->|Hin].
  - destruct Hbad as [Hknown|Hnone].
    + apply checkRule_known in Hknown. rewrite Hcheck in Hknown.
      by destruct Hknown.
    + rewrite (checkRule_noAdditions _ _ Hnone) in Hcheck. done.
  - apply IH; [done|]. destruct Hbad as [[x Hx]|Hnone]; [left|by right].
    destruct (decide (ruleName a = ruleName r)) as [Heq|Hne].
    + unfold ruleName in Heq. rewrite Heq, lookup_insert_eq. by eexists.
    + unfold ruleName in Hne. rewrite lookup_insert_ne by done.
      by eexists.
Qed.

(** Two rules of the same name make the loop fail. *)
Lemma validateRulesFrom_duplicate names rules i j r1 r2 :
  i < j → rules !! i = Some r1 → rules !! j = Some r2 →
  ruleName r1 = ruleName r2 →
  is_Some (validateRulesFrom names rules).
Proof.
  revert names i j. induction rules as [|a rules IH]; intros names i j Hij Hi Hj Heq.
  { done. }
  simpl. destruct (checkRule names a) eqn:Hcheck; [by eexists|].
  destruct i as [|i]; destruct j as [|j]; try lia; simpl in *.
  - injection Hi as ->.
    apply validateRulesFrom_rejects with r2.
    + by eapply list_elem_of_lookup_2.
    + left. rewrite <- Heq. unfold ruleName. rewrite lookup_insert_eq.
      by eexists.
  - apply (IH _ i j); [lia|done..].
Qed.

(** With pairwise distinct names, none of them seen before, the loop
    never reports a duplicate. *)
Lemma validateRulesFrom_distinct names rules n :
  NoDup (map ruleName rules) →
  (∀ r, r ∈ rules → names !! ruleName r = None) →
  validateRulesFrom names rules ≠ Some (ErrDuplicateName n).
Proof.
  revert names. induction rules as [|a rules IH]; intros names Hnd Hfresh.
  { done. }
  simpl. apply NoDup_cons in Hnd as [Ha Hnd].
  destruct (checkRule names a) eqn:Hcheck.
  - rewrite <- Hcheck. apply checkRule_fresh, Hfresh. by left.
  - apply IH; [done|]. intros r Hr.
    rewrite lookup_insert_ne.
    + apply Hfresh. by right.
    + intros Heq. apply Ha. change (ruleName a = ruleName r) in Heq.
      rewrite Heq. apply list_elem_of_fmap. by exists r.
Qed.

Lemma validateRulesFrom_hasAdditions names rules n :
  (∀ r, r ∈ rules → hasAdditions r) →
  validateRulesFrom names rules ≠ Some (ErrNoAdditions n).
Proof.
  revert names. induction rules as [|a rules IH]; intros names Hall.
  { done. }
  simpl. destruct (checkRule names a) eqn:Hcheck.
  - rewrite <- Hcheck. apply checkRule_hasAdditions, Hall. by left.
  - apply IH. intros r Hr. apply Hall. by right.
Qed.

(** ** The three checks of [ValidateConfig] *)

Lemma ValidateConfig_rules_fail c v :
  is_Some (validateRules c) → is_Some (ValidateConfig c v).
Proof.
  intros [e He]. unfold config.ValidateConfig.
  destruct (validateLogArgs LogLevels c); [by eexists|].
  destruct (validateWebhookArgs c v); [by eexists|].
  rewrite He. by eexists.
Qed.

Lemma ValidateConfig_from_rules c v e :
  ValidateConfig c v = Some e →
  (∀ n, e ≠ ErrDuplicateName n ∧ e ≠ ErrNoAdditions n) ∨
  validateRules c = Some e.
Proof.
  unfold config.ValidateConfig, validateLogArgs, validateWebhookArgs.
  destruct (LogLevels !! LogLevel c).
  - simpl. destruct (IsSet v "server.namespace"); simpl.
    + destruct (IsSet v "server.service"); simpl.
      * destruct (config.validateRules _ _ c) eqn:Hr; [|done].
        intros [= <-]. by right.
      * intros [= <-]. left. by split.
    + intros [= <-]. left. by split.
  - intros [= <-]. left. by split.
Qed.

Lemma validateWebhookArgs_unset (c : Configuration) v :
  validateWebhookArgs c v = Some ErrMissingParameter ↔
  IsSet v "server.namespace" = false ∨ IsSet v "server.service" = false.
Proof.
  unfold validateWebhookArgs. simpl.
  destruct (IsSet v "server.namespace"), (IsSet v "server.service");
    simpl; intuition congruence.
Qed.

(** ** Duplicate rule names *)

(** C6. A rule set with two rules of the same name makes
    [ValidateConfig] return an error; when all names of the rule set
    are distinct, neither [validateRules] nor [ValidateConfig] returns
    the duplicate-name error. *)
Theorem duplicate_rule_names_rejected (c : Configuration) (v : Viper) :
  (∀ i j r1 r2,
     i ≠ j → Rules c !! i = Some r1 → Rules c !! j = Some r2 →
     ruleName r1 = ruleName r2 →
     ∃ e, ValidateConfig c v = Some e)
  ∧ (NoDup (map ruleName (Rules c)) →
     ∀ n, validateRules c ≠ Some (ErrDuplicateName n)
          ∧ ValidateConfig c v ≠ Some (ErrDuplicateName n)).
Proof.
  split.
  - intros i j r1 r2 Hij Hi Hj Heq.
    apply ValidateConfig_rules_fail. unfold config.validateRules.
    destruct (decide (i < j)).
    + by apply (validateRulesFrom_duplicate _ _ i j r1 r2).
    + apply (validateRulesFrom_duplicate _ _ j i r2 r1); [lia|done..].
  - intros Hnd n.
    assert (validateRules c ≠ Some (ErrDuplicateName n)) as Hrules.
    { apply validateRulesFrom_distinct; [done|]. intros r _.
      apply lookup_empty. }
    split; [done|]. intros Hv.
    apply ValidateConfig_from_rules in Hv as [Hv|Hv]; [|done].
    by destruct (Hv n).
Qed.

(** ** Rules without additions *)

(** C7 (amended). A rule without labels and without annotations
    anywhere in the rule set makes [ValidateConfig] return an error.
    The error is the one naming that rule when the checks made before
    it pass: the log level, the webhook parameters and every earlier
    rule.  A rule with a label or an annotation never gets this error
    from the check, and a rule set of such rules never gets it from
    [ValidateConfig]. *)
Theorem rule_without_additions_rejected (c : Configuration) (v : Viper) :
  (∀ r, r ∈ Rules c → noAdditions r → ∃ e, ValidateConfig c v = Some e)
  ∧ (∀ pre r post,
       Rules c = pre ++ r :: post → noAdditions r →
       validateLogArgs LogLevels c = None →
       validateWebhookArgs c v = None →
       validateRulesFrom ∅ pre = None →
       ValidateConfig c v = Some (ErrNoAdditions (ruleName r)))
  ∧ (∀ names r n,
       hasAdditions r → checkRule names r ≠ Some (ErrNoAdditions n))
  ∧ ((∀ r, r ∈ Rules c → hasAdditions r) →
     ∀ n, ValidateConfig c v ≠ Some (ErrNoAdditions n)).
Proof.
  split; [|split; [|split]].
  - intros r Hin Hnone. apply ValidateConfig_rules_fail.
    unfold config.validateRules.
    apply validateRulesFrom_rejects with r; [done|by right].
  - intros pre r post Hrules Hnone Hlog Hhook Hpre.
    unfold config.ValidateConfig. rewrite Hlog, Hhook.
    unfold config.validateRules.
    rewrite Hrules, validateRulesFrom_app, Hpre. simpl.
    by rewrite (checkRule_noAdditions _ _ Hnone).
  - intros names r n. apply checkRule_hasAdditions.
  - intros Hall n Hv.
    apply ValidateConfig_from_rules in Hv as [Hv|Hv].
    + by destruct (Hv n).
    + revert Hv. by apply validateRulesFrom_hasAdditions.
Qed.

(** ** Required webhook parameters *)

(** C8 (amended). When [server.namespace] or [server.service] is not
    set, [validateWebhookArgs] returns the error "missing required
    parameter" and [ValidateConfig] returns an error; the error of
    [ValidateConfig] is that one when the log level is a known one. *)
Theorem missing_webhook_parameter_rejected (c : Configuration) (v : Viper) :
  IsSet v "server.namespace" = false ∨ IsSet v "server.service" = false →
  (∃ e, ValidateConfig c v = Some e)
  ∧ validateWebhookArgs c v = Some ErrMissingParameter
  ∧ Error ErrMissingParameter = "missing required parameter"
  ∧ (is_Some (LogLevels !! LogLevel c) →
     ValidateConfig c v = Some ErrMissingParameter).
Proof.
  intros Hunset.
  pose proof (proj2 (validateWebhookArgs_unset c v) Hunset) as Hhook.
  unfold config.ValidateConfig, validateLogArgs. rewrite Hhook.
  split; [|split; [done|split; [done|]]].
  - destruct (LogLevels !! LogLevel c); by eexists.
  - by intros [x ->].
Qed.

(** ** Log level *)

(** C9. A log level that is not a key of [LogLevels] makes
    [ValidateConfig] return the log-level error, and [validateLogArgs]
    succeeds exactly for the keys of [LogLevels]. *)
Theorem unknown_log_level_rejected (c : Configuration) (v : Viper) :
  (LogLevels !! LogLevel c = None →
   ValidateConfig c v = Some (ErrLogLevel (LogLevel c)))
  ∧ (validateLogArgs LogLevels c = None ↔ is_Some (LogLevels !! LogLevel c)).
Proof.
  unfold config.ValidateConfig, validateLogArgs. split.
  - by intros ->.
  - destruct (LogLevels !! LogLevel c) eqn:Hl.
    + split; [by eexists|done].
    + split; [done|]. by intros [? ?].
Qed.

(** ** Defaults of the certificate paths *)

Lemma Unmarshal_paths (v : Viper) :
  let c := (Unmarshal HealthChecker decodeHealthChecker decodeRules
              ParseInt v).1 in
  ServerCertPath (ServerConf c)
  = (mapstructure.field "" mapstructure.decodeString "server.cert-path"
       (AllSettings v)).1
  ∧ ServerKeyPath (ServerConf c)
    = (mapstructure.field "" mapstructure.decodeString "server.key-path"
         (AllSettings v)).1.
Proof.
  unfold Unmarshal.
  repeat match goal with
         | |- context [let '(_, _) := ?p in _] => destruct p
         end.
  by split.
Qed.

Lemma setDefaults_cert_path (v : Viper) :
  defaults (setDefaults v) !! "server.cert-path" = Some (VStr "/key.pem").
Proof. unfold setDefaults. simpl. apply lookup_insert_eq. Qed.

Lemma setDefaults_key_path (v : Viper) :
  defaults (setDefaults v) !! "server.key-path"
  = defaults v !! "server.key-path".
Proof.
  unfold setDefaults. simpl. by rewrite !lookup_insert_ne by done.
Qed.

(** C10. [setDefaults] leaves "/key.pem" as the default of
    [server.cert-path] and does not touch the default of
    [server.key-path]; so when neither the file nor anything else
    supplies the two keys, [LoadConfig] returns a configuration whose
    certificate path is "/key.pem" and whose key path is empty. *)
Theorem default_cert_path_is_key_pem
    (fs : string → option (gmap string value)) (file : string)
    (v : Viper) (m : gmap string value) :
  (defaults (setDefaults v) !! "server.cert-path" = Some (VStr "/key.pem")
   ∧ defaults (setDefaults v) !! "server.key-path"
     = defaults v !! "server.key-path")
  ∧ (file ≠ "" → fs file = Some m →
     m !! "server.cert-path" = None → m !! "server.key-path" = None →
     notOverridden v "server.cert-path" →
     notOverridden v "server.key-path" →
     defaults v !! "server.key-path" = None →
     ∃ c err v',
       LoadConfig HealthChecker decodeHealthChecker decodeRules ParseInt
         fs file v = Returned (c, err, v')
       ∧ ServerCertPath (ServerConf c) = "/key.pem"
       ∧ ServerKeyPath (ServerConf c) = "").
Proof.
  split; [split; [apply setDefaults_cert_path|apply setDefaults_key_path]|].
  intros Hfile Hfs Hcert Hkey [Hpc Hec] [Hpk Hek] Hdk.
  unfold LoadConfig.
  apply String.eqb_neq in Hfile as Hfile'. rewrite Hfile'. simpl.
  unfold ReadInConfig. simpl. rewrite Hfile', Hfile', Hfs.
  match goal with
  | |- context [unmarshalFromViperStrict _ _ _ _ ?v'] => set (loaded := v')
  end.
  destruct (Unmarshal_paths loaded) as [Hc Hk].
  unfold unmarshalFromViperStrict.
  destruct (Unmarshal _ _ _ _ loaded) as [c errs]. simpl in Hc, Hk.
  exists c, (match errs with [] => None | _ => Some (ErrUnmarshal errs) end),
         loaded.
  split; [by destruct errs|]. split.
  - rewrite Hc. unfold mapstructure.field.
    rewrite (viper_facts.AllSettings_default loaded _ (VStr "/key.pem"));
      [done..|].
    apply setDefaults_cert_path.
  - rewrite Hk. unfold mapstructure.field.
    rewrite viper_facts.AllSettings_unknown; [done|].
    unfold find. subst loaded. simpl.
    change (fromEnv _ "server.key-path") with (fromEnv v "server.key-path").
    rewrite Hpk, Hek, Hkey. simpl.
    pose proof (setDefaults_key_path v) as Hd. rewrite Hdk in Hd.
    unfold setDefaults in Hd. simpl in Hd. by rewrite Hd.
Qed.

(*CONFIG-CLAIMS*)
End Facts.

(** ** The properties at concrete configurations *)

Lemma duplicate_rule_names_rejected_witness :
  (∃ e, ValidateConfig sample.LogLevels sample.ValidateSelector
          sample.ValidateSelector
          (sample.configuration "info"
             [sample.rule "a" [("k", "v")] []; sample.rule "a" [("k", "w")] []])
          sample.registry = Some e)
  ∧ (∀ n, validateRules sample.ValidateSelector sample.ValidateSelector
            (sample.configuration "info"
               [sample.rule "a" [("k", "v")] [];
                sample.rule "b" [("k", "w")] []])
          ≠ Some (ErrDuplicateName n)
          ∧ ValidateConfig sample.LogLevels sample.ValidateSelector
              sample.ValidateSelector
              (sample.configuration "info"
                 [sample.rule "a" [("k", "v")] [];
                  sample.rule "b" [("k", "w")] []])
              sample.registry ≠ Some (ErrDuplicateName n)).
Proof.
  split.
  - apply (proj1 (duplicate_rule_names_rejected unit sample.LogLevels
                    sample.ValidateSelector sample.ValidateSelector _ _)
             0 1 (sample.rule "a" [("k", "v")] [])
             (sample.rule "a" [("k", "w")] []));
      [lia | reflexivity | reflexivity | reflexivity].
  - apply (proj2 (duplicate_rule_names_rejected unit sample.LogLevels
                    sample.ValidateSelector sample.ValidateSelector _ _)).
    apply (bool_decide_unpack _). vm_compute. reflexivity.
Defined.

(** Two rules without additions: the error names the first one only. *)
Lemma second_rule_without_additions_not_named :
  let c := sample.configuration "info"
             [sample.rule "first" [] []; sample.rule "second" [] []] in
  sample.rule "second" [] [] ∈ Rules c
  ∧ noAdditions (sample.rule "second" [] [])
  ∧ ValidateConfig sample.LogLevels sample.ValidateSelector
      sample.ValidateSelector c sample.registry
    = Some (ErrNoAdditions "first")
  ∧ ValidateConfig sample.LogLevels sample.ValidateSelector
      sample.ValidateSelector c sample.registry
    ≠ Some (ErrNoAdditions (ruleName (sample.rule "second" [] []))).
Proof.
  simpl. split; [|split; [|split]].
  - apply list_elem_of_In. simpl. auto.
  - by split.
  - vm_compute. reflexivity.
  - vm_compute. discriminate.
Qed.

Lemma rule_without_additions_rejected_witness :
  let c := sample.configuration "info"
             [sample.rule "first" [("k", "v")] []; sample.rule "second" [] []] in
  (∃ e, ValidateConfig sample.LogLevels sample.ValidateSelector
          sample.ValidateSelector c sample.registry = Some e)
  ∧ ValidateConfig sample.LogLevels sample.ValidateSelector
      sample.ValidateSelector c sample.registry
    = Some (ErrNoAdditions "second")
  ∧ (∀ n, ValidateConfig sample.LogLevels sample.ValidateSelector
            sample.ValidateSelector
            (sample.configuration "info"
               [sample.rule "first" [("k", "v")] [];
                sample.rule "second" [] [("k", "v")]])
            sample.registry ≠ Some (ErrNoAdditions n)).
Proof.
  simpl. split; [|split].
  - apply (proj1 (rule_without_additions_rejected unit sample.LogLevels
                    sample.ValidateSelector sample.ValidateSelector _ _)
             (sample.rule "second" [] [])).
    + apply list_elem_of_In. simpl. auto.
    + split; reflexivity.
  - apply (proj1 (proj2 (rule_without_additions_rejected unit sample.LogLevels
                    sample.ValidateSelector sample.ValidateSelector _ _))
             [sample.rule "first" [("k", "v")] []]
             (sample.rule "second" [] []) []).
    + reflexivity.
    + split; reflexivity.
    + vm_compute. reflexivity.
    + vm_compute. reflexivity.
    + vm_compute. reflexivity.
  - apply (proj2 (proj2 (proj2 (rule_without_additions_rejected unit
                    sample.LogLevels sample.ValidateSelector
                    sample.ValidateSelector _ _)))).
    intros r Hr. apply list_elem_of_In in Hr. simpl in Hr.
    destruct Hr as [<-|[<-|[]]]; [left|right]; simpl; discriminate.
Defined.

(** An unknown log level hides the missing parameter. *)
Lemma missing_parameter_behind_log_level :
  IsSet sample.registryWithoutNamespace "server.namespace" = false
  ∧ ValidateConfig sample.LogLevels sample.ValidateSelector
      sample.ValidateSelector
      (sample.configuration "verbose" [sample.rule "a" [("k", "v")] []])
      sample.registryWithoutNamespace
    = Some (ErrLogLevel "verbose")
  ∧ Error (ErrLogLevel "verbose") ≠ "missing required parameter".
Proof.
  split; [|split].
  - vm_compute. reflexivity.
  - vm_compute. reflexivity.
  - vm_compute. discriminate.
Qed.

Lemma missing_webhook_parameter_rejected_witness :
  let c := sample.configuration "info" [sample.rule "a" [("k", "v")] []] in
  (∃ e, ValidateConfig sample.LogLevels sample.ValidateSelector
          sample.ValidateSelector c sample.registryWithoutNamespace = Some e)
  ∧ validateWebhookArgs c sample.registryWithoutNamespace
    = Some ErrMissingParameter
  ∧ Error ErrMissingParameter = "missing required parameter"
  ∧ (is_Some (sample.LogLevels !! LogLevel c) →
     ValidateConfig sample.LogLevels sample.ValidateSelector
       sample.ValidateSelector c sample.registryWithoutNamespace
     = Some ErrMissingParameter).
Proof.
  apply (missing_webhook_parameter_rejected unit sample.LogLevels
           sample.ValidateSelector sample.ValidateSelector).
  left. vm_compute. reflexivity.
Defined.

Lemma unknown_log_level_rejected_witness :
  ValidateConfig sample.LogLevels sample.ValidateSelector
    sample.ValidateSelector
    (sample.configuration "verbose" [sample.rule "a" [("k", "v")] []])
    sample.registry
  = Some (ErrLogLevel "verbose").
Proof.
  apply (proj1 (unknown_log_level_rejected unit sample.LogLevels
                  sample.ValidateSelector sample.ValidateSelector
                  (sample.configuration "verbose"
                     [sample.rule "a" [("k", "v")] []])
                  sample.registry)).
  vm_compute. reflexivity.
Defined.

Lemma default_cert_path_is_key_pem_witness :
  ∃ c err v',
    LoadConfig unit (λ _, (tt, [])) (λ _, ([], [])) (λ _, None)
      sample.configFiles "/config/graffiti-config.yaml" New
    = Returned (c, err, v')
    ∧ ServerCertPath (ServerConf c) = "/key.pem"
    ∧ ServerKeyPath (ServerConf c) = "".
Proof.
  apply (proj2 (default_cert_path_is_key_pem unit (λ _, (tt, []))
                  (λ _, ([], [])) (λ _, None) sample.configFiles
                  "/config/graffiti-config.yaml" New sample.file)).
  - discriminate.
  - reflexivity.
  - vm_compute. reflexivity.
  - vm_compute. reflexivity.
  - split; vm_compute; reflexivity.
  - split; vm_compute; reflexivity.
  - vm_compute. reflexivity.
Defined.

End config_facts.

(* ===================================================================== *)
(** * Properties of [cmd/command.go] *)

Module cmd_facts.

Import graffiti webhook viper cmd.

(** ** Rendering of values *)

Lemma pretty_N_go_not_true (x : N) (s : string) :
  s ≠ "true" → pretty_N_go x s ≠ "true".
Proof.
  revert s. induction (N.lt_wf_0 x) as [x _ IH]. intros s Hs.
  destruct (decide (x = 0%N)) as [->|Hx].
  - by rewrite pretty_N_go_0.
  - rewrite pretty_N_go_step by lia. apply IH.
    + apply N.div_lt; lia.
    + unfold pretty_N_char. repeat case_match; discriminate.
Qed.

Lemma pretty_Z_not_true (n : Z) : pretty n ≠ "true".
Proof.
  destruct n as [|p|p]; [done| |done].
  change (pretty (N.pos p) ≠ "true"). unfold pretty, pretty_N.
  rewrite decide_False by done. by apply pretty_N_go_not_true.
Qed.

(** The setting renders as "true" exactly when it is the boolean [true]
    or the string "true". *)
Lemma ToString_true (o : option value) :
  cast.ToString o = "true" ↔ o = Some (VBool true) ∨ o = Some (VStr "true").
Proof.
  split.
  - destruct o as [[[|]|n|s|l|m]|]; simpl; try discriminate; auto.
    + intros Hn. by apply pretty_Z_not_true in Hn.
    + intros ->. by right.
  - by intros [->| ->].
Qed.

Lemma ToString_true_ToBool (o : option value) :
  cast.ToString o = "true" → cast.ToBool o = true.
Proof. intros H. apply ToString_true in H as [->| ->]; reflexivity. Qed.

Lemma checkExistingDisabled_false (v : Viper) :
  checkExistingDisabled v = false ↔
  IsSet v "check-existing" = true ∧ GetString v "check-existing" = "true".
Proof.
  unfold checkExistingDisabled.
  rewrite orb_false_iff, !negb_false_iff, String.eqb_eq. done.
Qed.

Section Facts.

Variable HealthChecker : Type.
Variable world : World.

Abbreviation Configuration := (config.Configuration HealthChecker).

(** ** The existing-object check *)

Lemma initExistingCheck_run (c : Configuration) (s : state) :
  initExistingCheck world c s =
  if checkExistingDisabled (registry s) then (Some None, s)
  else match initKubeClients world with
       | Some err => (Some (Some err), extend s [InitKubeClients])
       | None =>
           (Some None,
            extend s [InitKubeClients;
                      ApplyRulesAgainstExistingObjects
                        (map config.ruleName (config.Rules c))])
       end.
Proof.
  unfold initExistingCheck, bind, read, emit, ret, extend. simpl.
  destruct (checkExistingDisabled (registry s)); [done|].
  destruct (initKubeClients world); simpl; [done|].
  by rewrite <- app_assoc.
Qed.

(** C1 (amended). [initExistingCheck] runs the applier exactly when
    [check-existing] is set, renders as the string "true" and the
    clients initialise; the setting renders so exactly when its value
    is the boolean [true] or the string "true"; a setting that is
    absent or not truthy never runs the applier. *)
Theorem applier_runs_iff_setting_renders_true
    (c : Configuration) (v : Viper) :
  (applierRuns (existingCheckCalls world c v) = true ↔
   IsSet v "check-existing" = true
   ∧ GetString v "check-existing" = "true"
   ∧ initKubeClients world = None)
  ∧ (IsSet v "check-existing" = true
     ∧ GetString v "check-existing" = "true" ↔
     find v "check-existing" = Some (VBool true)
     ∨ find v "check-existing" = Some (VStr "true"))
  ∧ (GetBool v "check-existing" = false →
     applierRuns (existingCheckCalls world c v) = false).
Proof.
  assert (applierRuns (existingCheckCalls world c v) = true ↔
          IsSet v "check-existing" = true
          ∧ GetString v "check-existing" = "true"
          ∧ initKubeClients world = None) as Hruns.
  { unfold existingCheckCalls. rewrite initExistingCheck_run. simpl.
    destruct (checkExistingDisabled v) eqn:Hd.
    - simpl. split; [done|]. intros (Hset & Hstr & _).
      assert (checkExistingDisabled v = false) as Hd'
        by by apply checkExistingDisabled_false.
      congruence.
    - apply checkExistingDisabled_false in Hd as [Hset Hstr].
      destruct (initKubeClients world); simpl.
      + split; [done|]. by intros (_ & _ & ?).
      + done. }
  split; [done|]. split.
  - unfold IsSet, GetString. rewrite ToString_true. split.
    + by intros [_ ?].
    + intros H. split; [|done]. apply bool_decide_eq_true.
      destruct H as [-> | ->]; by eexists.
  - intros Hfalse.
    destruct (applierRuns (existingCheckCalls world c v)) eqn:Hr; [|done].
    destruct (proj1 Hruns eq_refl) as (_ & Hstr & _).
    apply ToString_true_ToBool in Hstr. unfold GetBool in Hfalse.
    congruence.
Qed.

End Facts.

(** [unmarshalFromViperStrict] fills [CheckExisting] by the same test. *)
Lemma unmarshal_CheckExisting (HealthChecker : Type) (zero : HealthChecker)
    (UnmarshalServer : Viper → config.Server * option string)
    (UnmarshalHealthCheck : Viper → HealthChecker * option string)
    (UnmarshalRules : Viper → list config.Rule * option string)
    (v : Viper) (c : config.Configuration HealthChecker) :
  unmarshalFromViperStrict HealthChecker zero UnmarshalServer
    UnmarshalHealthCheck UnmarshalRules v = (c, None) →
  config.CheckExisting c = negb (checkExistingDisabled v)
  ∧ config.LogLevel c = GetString v "log-level".
Proof.
  unfold unmarshalFromViperStrict.
  destruct (UnmarshalServer v) as [server [e1|]]; [done|].
  destruct (UnmarshalHealthCheck v) as [health [e2|]]; [done|].
  destruct (UnmarshalRules v) as [rules [e3|]]; [done|].
  intros [= <-]. simpl. by destruct (checkExistingDisabled v).
Qed.

(** ** The order of the calls of a run *)

Lemma extend_extend (s : state) (a b : list event) :
  extend (extend s a) b = extend s (a ++ b).
Proof. unfold extend. simpl. by rewrite app_assoc. Qed.

Lemma extend_nil (s : state) : extend s [] = s.
Proof. destruct s. unfold extend. simpl. by rewrite app_nil_r. Qed.

Lemma emit_run (e : event) (s : state) : emit e s = (Some tt, extend s [e]).
Proof. done. Qed.

Lemma forEach_emit {A} (f : A → event) (l : list A) (s : state) :
  forEach l (λ a, emit (f a)) s = (Some tt, extend s (map f l)).
Proof.
  revert s. induction l as [|a l IH]; intros s; simpl.
  - by rewrite extend_nil.
  - unfold bind. rewrite emit_run, IH, extend_extend. done.
Qed.

Lemma eventsBefore_app (p : event → bool) (pre post : list event) (e : event) :
  Forall (λ x, p x = false) pre → p e = true →
  eventsBefore p (pre ++ e :: post) = Some pre.
Proof.
  intros Hpre He. induction Hpre as [|x pre Hx _ IH]; simpl.
  - by rewrite He.
  - by rewrite Hx, IH.
Qed.

Lemma eventsBefore_none (p : event → bool) (t : list event) :
  Forall (λ x, p x = false) t → eventsBefore p t = None.
Proof.
  intros Ht. induction Ht as [|x t Hx _ IH]; simpl; [done|].
  by rewrite Hx, IH.
Qed.

Lemma eventsBefore_app_l (p : event → bool) (l1 l2 pre : list event) :
  eventsBefore p l1 = Some pre → eventsBefore p (l1 ++ l2) = Some pre.
Proof.
  revert pre. induction l1 as [|e l1 IH]; intros pre; simpl; [done|].
  destruct (p e); [done|].
  destruct (eventsBefore p l1) as [pre1|]; [|done].
  intros [= <-]. by rewrite (IH pre1).
Qed.

Lemma eventsBefore_is_Some (p : event → bool) (t : list event) :
  (∃ e, e ∈ t ∧ p e = true) → is_Some (eventsBefore p t).
Proof.
  intros (e & He & Hp). induction t as [|x t IH]; simpl.
  - by apply elem_of_nil in He.
  - destruct (p x) eqn:Hx; [by eexists|].
    apply elem_of_cons in He as [->|He]; [congruence|].
    destruct (IH He) as [pre ->]. by eexists.
Qed.

Lemma eventsBefore_prefix (p : event → bool) (t pre : list event) :
  eventsBefore p t = Some pre → ∃ e post, t = pre ++ e :: post.
Proof.
  revert pre. induction t as [|x t IH]; intros pre; simpl; [done|].
  destruct (p x).
  - intros [= <-]. by exists x, t.
  - destruct (eventsBefore p t) as [pre1|]; [|done].
    intros [= <-]. destruct (IH pre1 eq_refl) as (e & post & ->).
    by exists e, post.
Qed.

Section Run.

Variable HealthChecker : Type.
Variable zeroHealthChecker : HealthChecker.
Variable LogLevels : gmap string Z.
Variable ValidateLabelSelector : string → option string.
Variable ValidateFieldSelector : string → option string.
Variable UnmarshalServer : Viper → config.Server * option string.
Variable UnmarshalHealthCheck : Viper → HealthChecker * option string.
Variable UnmarshalRules : Viper → list config.Rule * option string.
Variable world : World.

Abbreviation loadConfig :=
  (cmd.loadConfig HealthChecker zeroHealthChecker UnmarshalServer
     UnmarshalHealthCheck UnmarshalRules world).
Abbreviation runRootCmd :=
  (cmd.runRootCmd HealthChecker zeroHealthChecker LogLevels
     ValidateLabelSelector ValidateFieldSelector UnmarshalServer
     UnmarshalHealthCheck UnmarshalRules world).
Abbreviation run :=
  (cmd.run HealthChecker zeroHealthChecker LogLevels
     ValidateLabelSelector ValidateFieldSelector UnmarshalServer
     UnmarshalHealthCheck UnmarshalRules world).

Lemma registerRules_run (rules : list config.Rule) (s : state) :
  ∃ r events,
    registerRules world rules s = (Some r, extend s events)
    ∧ Forall quiet events
    ∧ (r = None → events = map (λ rule, RegisterHook (config.ruleName rule)) rules).
Proof.
  unfold config.ruleName.
  revert s. induction rules as [|rule rules IH]; intros s; simpl.
  - exists None, []. rewrite extend_nil. by repeat split.
  - unfold bind. rewrite emit_run.
    destruct (registerHook world _) as [err|].
    + exists (Some err), [RegisterHook (Name (config.Registration rule))].
      repeat split; [|done]. by repeat constructor.
    + destruct (IH (extend s [RegisterHook (Name (config.Registration rule))]))
        as (r & events & Heq & Hq & Hall).
      exists r, (RegisterHook (Name (config.Registration rule)) :: events).
      rewrite Heq, extend_extend. repeat split.
      * constructor; [done|done].
      * intros Hr. by rewrite (Hall Hr).
Qed.

Lemma initWebhookServer_run (c : config.Configuration HealthChecker)
    (s : state) :
  ∃ r events,
    initWebhookServer world c s = (Some r, extend s events)
    ∧ Forall (λ e, isApplier e = false) events
    ∧ (r = None →
       ∃ before certPath keyPath,
         events = before
                  ++ [StartWebhookServer certPath keyPath; Sleep 2]
                  ++ map (λ rule, RegisterHook (config.ruleName rule))
                       (config.Rules c)).
Proof.
  unfold config.ruleName, initWebhookServer, bind, read. rewrite emit_run.
  destruct (files world _) as [ca|].
  - simpl.
    rewrite (forEach_emit
               (λ rule, AddGraffitiRule (Name (config.Registration rule)))).
    simpl.
    match goal with
    | |- context [registerRules world _ ?s'] =>
        destruct (registerRules_run (config.Rules c) s')
          as (r & events & Heq & Hq & Hall); rewrite Heq
    end.
    exists r,
      ([ReadFile (GetString (registry s) "server.ca-cert-path");
        NewServer (GetString (registry s) "server.company-domain")
          (GetString (registry s) "server.namespace")
          (GetString (registry s) "server.service")]
       ++ map (λ rule, AddGraffitiRule (Name (config.Registration rule)))
            (config.Rules c)
       ++ [StartWebhookServer (GetString (registry s) "server.cert-path")
             (GetString (registry s) "server.key-path"); Sleep 2]
       ++ events).
    split; [|split].
    + unfold extend. simpl. do 2 f_equal.
      rewrite <- !app_assoc. simpl. reflexivity.
    + rewrite !Forall_app. repeat split.
      * by repeat constructor.
      * apply Forall_forall. intros e He.
        apply list_elem_of_fmap in He as (rule & -> & _). done.
      * by repeat constructor.
      * eapply Forall_impl; [exact Hq|]. by intros e [? _].
    + intros Hr. rewrite (Hall Hr).
      eexists (_ :: _ :: _), _, _. simpl. reflexivity.
  - exists (Some "failed to load ca from file"), [ReadFile (GetString (registry s) "server.ca-cert-path")].
    split; [done|]. split; [by repeat constructor|done].
Qed.

Lemma fatal_run {A} (msg : string) (s : state) :
  @fatal A msg s = (None, extend s [Fatal msg; Exit 1]).
Proof.
  unfold fatal, bind, halt. rewrite !emit_run, extend_extend. done.
Qed.

Lemma loadConfig_run (file : string) (s : state) :
  ∃ r s' events,
    loadConfig file s = (r, s')
    ∧ trace s' = trace s ++ events
    ∧ Forall (λ e, isApplier e = false) events.
Proof.
  unfold cmd.loadConfig, bind, update, read. simpl.
  destruct (ReadInConfig _ _) as [v'|]; simpl.
  - eexists _, _, [_]. split; [done|]. split; [done|].
    by repeat constructor.
  - eexists _, _, [_; _]. split; [done|]. simpl.
    rewrite <- app_assoc. split; [done|]. by repeat constructor.
Qed.

Lemma getKubeClients_run (s : state) :
  ∃ r events,
    getKubeClients world s = (r, extend s events)
    ∧ Forall (λ e, isApplier e = false) events.
Proof.
  unfold getKubeClients, bind, halt. rewrite emit_run.
  destruct (inClusterConfig world) as [err|].
  - rewrite emit_run, extend_extend. eexists _, _. split; [done|].
    by repeat constructor.
  - rewrite emit_run, extend_extend.
    destruct (newForConfig world) as [err|].
    + rewrite emit_run, extend_extend. eexists _, _. split; [done|].
      by repeat constructor.
    + eexists _, _. split; [done|]. by repeat constructor.
Qed.

(** A run either never calls the applier, or calls it once, after the
    webhook server was started and every rule registered, and then
    only waits for the interrupt. *)
Lemma runRootCmd_shape (s : state) :
  Forall (λ e, isApplier e = false) (trace s) →
  let t := trace (runRootCmd s).2 in
  Forall (λ e, isApplier e = false) t
  ∨ ∃ before certPath keyPath names,
      t = before ++ [ApplyRulesAgainstExistingObjects names;
                     WaitForInterrupt; Exit 0]
      ∧ Forall (λ e, isApplier e = false) before
      ∧ StartWebhookServer certPath keyPath ∈ before
      ∧ ∀ n, n ∈ names → RegisterHook n ∈ before.
Proof.
  intros Hs. unfold cmd.runRootCmd, bind, read.
  destruct (loadConfig_run (GetString (registry s) "config") s)
    as (r & s1 & ev1 & Heq1 & Ht1 & Hq1).
  change (cmd.loadConfig _ _ _ _ _ _ _ s) with
    (loadConfig (GetString (registry s) "config") s).
  rewrite Heq1.
  assert (Forall (λ e, isApplier e = false) (trace s1)) as Hs1.
  { rewrite Ht1. by apply Forall_app. }
  destruct r as [[c [err|]]|]; cbn beta iota.
  { left. rewrite fatal_run. simpl. no_applier. }
  2: { by left. }
  rewrite emit_run.
  destruct (config.ValidateConfig _ _ _ c _) as [err|].
  { left. rewrite fatal_run, extend_extend. simpl. no_applier. }
  destruct (getKubeClients_run
              (extend s1 [ChangeLogLevel (GetString (registry s1) "log-level")]))
    as (r2 & ev2 & Heq2 & Hq2).
  rewrite Heq2, extend_extend.
  destruct r2 as [[]|]; cbn beta iota.
  2: { left. simpl. no_applier. }
  rewrite emit_run, extend_extend.
  match goal with
  | |- context [initWebhookServer world c ?s'] =>
      destruct (initWebhookServer_run c s')
        as (r3 & ev3 & Heq3 & Hq3 & Hok3); rewrite Heq3
  end.
  rewrite extend_extend.
  destruct r3 as [err|].
  { left. rewrite fatal_run, extend_extend. simpl. no_applier. }
  rewrite cmd_facts.initExistingCheck_run.
  destruct (checkExistingDisabled _).
  { left. rewrite !emit_run, !extend_extend. simpl. no_applier. }
  destruct (initKubeClients world) as [err|].
  { left. rewrite fatal_run, !extend_extend. simpl. no_applier. }
  right. rewrite !emit_run, !extend_extend. simpl.
  destruct (Hok3 eq_refl) as (before & certPath & keyPath & ->).
  exists (trace s1
          ++ (ChangeLogLevel (GetString (registry s1) "log-level") :: ev2)
          ++ [StartHealthChecker
                (GetString (registry s1) "health-checker.path")]
          ++ before
          ++ [StartWebhookServer certPath keyPath; Sleep 2]
          ++ map (λ rule, RegisterHook (config.ruleName rule))
               (config.Rules c)
          ++ [InitKubeClients]),
    certPath, keyPath, (map config.ruleName (config.Rules c)).
  split.
  { rewrite <- ?app_assoc. simpl. rewrite <- ?app_assoc. simpl.
    reflexivity. }
  apply Forall_app in Hq3 as [Hq3 Hq3'].
  apply Forall_app in Hq3' as [_ Hq3'].
  split; [no_applier|]. split.
  { do 4 (apply elem_of_app; right). apply elem_of_app. left. by left. }
  intros n Hn.
  apply list_elem_of_fmap in Hn as (rule & -> & Hrule).
  do 5 (apply elem_of_app; right). apply elem_of_app. left.
  apply list_elem_of_fmap. by exists rule.
Qed.

Lemma run_shape (v : Viper) :
  Forall (λ e, isApplier e = false) (run v)
  ∨ ∃ before certPath keyPath names,
      run v = before ++ [ApplyRulesAgainstExistingObjects names;
                         WaitForInterrupt; Exit 0]
      ∧ Forall (λ e, isApplier e = false) before
      ∧ StartWebhookServer certPath keyPath ∈ before
      ∧ ∀ n, n ∈ names → RegisterHook n ∈ before.
Proof.
  unfold cmd.run, initRootCmd, bind, read. rewrite emit_run.
  apply runRootCmd_shape. simpl. by repeat constructor.
Qed.

(** C2 (amended). In a run that calls the applier, the calls made
    before it include the start of the webhook server and the
    registration of every rule the applier is given; and no call of
    the applier comes before the start of the server. *)
Theorem applier_runs_after_server_start (v : Viper)
    (before : list event) :
  eventsBefore isApplier (run v) = Some before →
  existsb isServerStart before = true
  ∧ (∀ names, ApplyRulesAgainstExistingObjects names ∈ run v →
              ∀ n, n ∈ names → RegisterHook n ∈ before)
  ∧ (∀ pre, eventsBefore isServerStart (run v) = Some pre →
            applierRuns pre = false).
Proof.
  intros Hbefore.
  destruct (run_shape v)
    as [Hnone|(before' & certPath & keyPath & names' & Hrun & Hq & Hstart & Hreg)].
  { rewrite (eventsBefore_none _ _ Hnone) in Hbefore. done. }
  rewrite Hrun in *.
  rewrite (eventsBefore_app isApplier before' _
             (ApplyRulesAgainstExistingObjects names') Hq eq_refl)
    in Hbefore.
  injection Hbefore as <-. split; [|split].
  - apply existsb_exists. exists (StartWebhookServer certPath keyPath).
    split; [by apply list_elem_of_In|done].
  - intros names Hin n Hn. apply Hreg.
    apply elem_of_app in Hin as [Hin|Hin].
    + rewrite Forall_forall in Hq. by apply Hq in Hin.
    + apply elem_of_cons in Hin as [[= ->]|Hin]; [done|].
      apply elem_of_cons in Hin as [?|Hin]; [done|].
      apply elem_of_cons in Hin as [?|Hin]; [done|].
      by apply elem_of_nil in Hin.
  - intros pre Hpre.
    assert (is_Some (eventsBefore isServerStart before')) as [pre' Hpre'].
    { apply eventsBefore_is_Some.
      exists (StartWebhookServer certPath keyPath). by split. }
    rewrite (eventsBefore_app_l _ _ _ _ Hpre') in Hpre.
    injection Hpre as <-.
    apply eventsBefore_prefix in Hpre' as (e & post & ->).
    apply Forall_app in Hq as [Hq _].
    unfold applierRuns. apply not_true_is_false. intros Hex.
    apply existsb_exists in Hex as (x & Hx & Hax).
    apply list_elem_of_In in Hx. rewrite Forall_forall in Hq.
    apply Hq in Hx. congruence.
Qed.

End Run.

(** ** The existing-object check at concrete registries *)

(** A truthy setting that does not run the applier: the environment
    gives [GRAFFITI_CHECK_EXISTING=1]. *)
Lemma truthy_setting_does_not_run_applier :
  let v := cmd.setDefaults (sample.deployed "1") in
  GetBool v "check-existing" = true
  ∧ initKubeClients sample.world = None
  ∧ applierRuns (existingCheckCalls sample.world
                   (sample.configuration "info" sample.rules) v) = false.
Proof. vm_compute. done. Qed.

Lemma applier_runs_iff_setting_renders_true_witness :
  applierRuns (existingCheckCalls sample.world
                 (sample.configuration "info" sample.rules)
                 (cmd.setDefaults (sample.deployed "true"))) = true.
Proof.
  apply (proj1 (applier_runs_iff_setting_renders_true unit sample.world
                  (sample.configuration "info" sample.rules)
                  (cmd.setDefaults (sample.deployed "true")))).
  vm_compute. done.
Defined.

(** ** The order of the calls at the deployment of the manifest *)

(** With the applier enabled, the server is started before the applier
    has run. *)
Lemma server_started_before_applier_ran :
  applierRuns (sample.run (sample.deployed "true")) = true
  ∧ ∃ pre, eventsBefore isServerStart (sample.run (sample.deployed "true"))
           = Some pre
           ∧ applierRuns pre = false.
Proof. split; [vm_compute; done|]. eexists. vm_compute. done. Qed.

Lemma applier_runs_after_server_start_witness :
  existsb isServerStart
    (take 15 (sample.run (sample.deployed "true"))) = true
  ∧ (∀ names,
       ApplyRulesAgainstExistingObjects names
       ∈ sample.run (sample.deployed "true") →
       ∀ n, n ∈ names →
            RegisterHook n ∈ take 15 (sample.run (sample.deployed "true")))
  ∧ (∀ pre,
       eventsBefore isServerStart (sample.run (sample.deployed "true"))
       = Some pre →
       applierRuns pre = false).
Proof.
  apply (applier_runs_after_server_start unit tt sample.LogLevels
           sample.ValidateSelector sample.ValidateSelector
           sample.UnmarshalServer (λ _, (tt, None))
           (λ _, (sample.rules, None)) sample.world
           (sample.deployed "true")).
  vm_compute. reflexivity.
Defined.

End cmd_facts.

(* ===================================================================== *)
(** * Properties of pointers and of patch application *)

Module jsonpatch_facts.

Import jsonpatch.

(** ** Reference tokens *)

Lemma unescape_escape (s : string) : unescape (escape s) = s.
Proof.
  induction s as [|c s IH]; simpl; [done|].
  destruct (Ascii.eqb c "~") eqn:Htilde.
  - apply Ascii.eqb_eq in Htilde as ->. simpl. by rewrite IH.
  - destruct (Ascii.eqb c "/") eqn:Hslash.
    + apply Ascii.eqb_eq in Hslash as ->. simpl. by rewrite IH.
    + simpl. by rewrite Htilde, IH.
Qed.

Lemma escape_inj (s t : string) : escape s = escape t → s = t.
Proof.
  intros H. apply (f_equal unescape) in H. by rewrite !unescape_escape in H.
Qed.

(** An escaped token has no slash, so it is one piece. *)
Lemma split_slash_escape (s : string) : split_slash (escape s) = [escape s].
Proof.
  induction s as [|c s IH]; simpl; [done|].
  destruct (Ascii.eqb c "~") eqn:Htilde.
  - simpl. by rewrite IH.
  - destruct (Ascii.eqb c "/") eqn:Hslash.
    + simpl. by rewrite IH.
    + simpl. by rewrite Hslash, IH.
Qed.

Lemma append_inj_l (p a b : string) : p +:+ a = p +:+ b → a = b.
Proof.
  induction p as [|c p IH]; simpl; [done|]. intros [= H]. by apply IH.
Qed.

Lemma append_ne_self (p a : string) : a ≠ "" → p +:+ a ≠ p.
Proof.
  intros Ha. induction p as [|c p IH]; [done|].
  change (String c p +:+ a) with (String c (p +:+ a)). congruence.
Qed.

Lemma HasPrefix_append (p s : string) : Str.HasPrefix (p +:+ s) p = true.
Proof.
  induction p as [|c p IH]; [done|].
  change (String c p +:+ s) with (String c (p +:+ s)). simpl.
  by rewrite Ascii.eqb_refl, IH.
Qed.

(** ** Mappings *)

Lemma alookup_aset_eq (k : string) (x : value) (m : list (string * value)) :
  alookup k (aset k x m) = Some x.
Proof.
  induction m as [|[k' y] m IH]; simpl.
  - by rewrite String.eqb_refl.
  - destruct (String.eqb k' k) eqn:Hk; simpl.
    + by rewrite String.eqb_refl.
    + by rewrite Hk.
Qed.

Lemma alookup_aset_ne (k k' : string) (x : value) (m : list (string * value)) :
  k ≠ k' → alookup k' (aset k x m) = alookup k' m.
Proof.
  intros Hne. induction m as [|[k0 y] m IH]; simpl.
  - by rewrite (proj2 (String.eqb_neq k k')).
  - destruct (String.eqb k0 k) eqn:Hk; simpl.
    + apply String.eqb_eq in Hk as ->.
      by rewrite (proj2 (String.eqb_neq k k')).
    + destruct (String.eqb k0 k'); [done|apply IH].
Qed.

Lemma alookup_aset_is_Some (k k' : string) (x : value)
    (m : list (string * value)) :
  is_Some (alookup k' m) → is_Some (alookup k' (aset k x m)).
Proof.
  intros Hsome. destruct (decide (k = k')) as [->|Hne].
  - rewrite alookup_aset_eq. by eexists.
  - by rewrite alookup_aset_ne.
Qed.

(** ** Writing below [metadata] *)

(** A member of the metadata mapping is written as a whole. *)
Lemma put_member (name : string) (x object object' : value) :
  put false ["metadata"; name] x object = Some object' →
  get ["metadata"; name] object' = Some x
  ∧ (∀ other, other ≠ name →
       get ["metadata"; other] object' = get ["metadata"; other] object)
  ∧ (∀ field, field ≠ "metadata" → get [field] object' = get [field] object).
Proof.
  simpl. destruct object as [| | | |top]; try done.
  destruct (alookup "metadata" top) as [[| | | |meta]|] eqn:Hmeta; try done.
  intros [= <-]. simpl. rewrite alookup_aset_eq. simpl.
  rewrite alookup_aset_eq. split; [done|]. split.
  - intros other Hne. by rewrite alookup_aset_ne.
  - intros field Hne. by rewrite alookup_aset_ne.
Qed.

(** A key of a member of the metadata mapping is written: the member is a
    mapping before and after. *)
Lemma put_key (must_exist : bool) (name key : string)
    (x object object' : value) :
  put must_exist ["metadata"; name; key] x object = Some object' →
  ∃ m, get ["metadata"; name] object = Some (VMap m)
       ∧ get ["metadata"; name] object' = Some (VMap (aset key x m))
       ∧ (∀ other, other ≠ name →
            get ["metadata"; other] object' = get ["metadata"; other] object)
       ∧ (∀ field, field ≠ "metadata" →
            get [field] object' = get [field] object).
Proof.
  simpl. destruct object as [| | | |top]; try done.
  destruct (alookup "metadata" top) as [[| | | |meta]|] eqn:Hmeta; try done.
  destruct (alookup name meta) as [[| | | |m]|] eqn:Hname; try done.
  destruct (must_exist && _); [done|].
  intros [= <-]. exists m. simpl. rewrite alookup_aset_eq. simpl.
  rewrite alookup_aset_eq. repeat split.
  - intros other Hne. by rewrite alookup_aset_ne.
  - intros field Hne. by rewrite alookup_aset_ne.
Qed.

Lemma put_member_succeeds (name : string) (x object : value)
    (meta : list (string * value)) :
  get ["metadata"] object = Some (VMap meta) →
  is_Some (put false ["metadata"; name] x object).
Proof.
  simpl. destruct object as [| | | |top]; try done.
  destruct (alookup "metadata" top) as [child|]; [|done].
  intros [= ->]. by eexists.
Qed.

Lemma put_key_succeeds (must_exist : bool) (name key : string)
    (x object : value) (m : list (string * value)) :
  get ["metadata"; name] object = Some (VMap m) →
  must_exist = false ∨ is_Some (alookup key m) →
  is_Some (put must_exist ["metadata"; name; key] x object).
Proof.
  simpl. destruct object as [| | | |top]; try done.
  destruct (alookup "metadata" top) as [[| | | |meta]|]; try done.
  destruct (alookup name meta) as [child|]; [|done].
  intros [= ->] Hok.
  assert (must_exist && negb (bool_decide (is_Some (alookup key m))) = false)
    as ->; [|by eexists].
  destruct Hok as [->|Hsome]; [done|].
  rewrite bool_decide_eq_true_2 by done. by rewrite andb_false_r.
Qed.

End jsonpatch_facts.

(* ===================================================================== *)
(** * Properties of the rule engine *)

Module engine_facts.

Import graffiti jsonpatch engine jsonpatch_facts.

(** ** The paths the synthesizer writes *)

Lemma parse_labelsPath : parse_pointer labelsPath = Some ["metadata"; "labels"].
Proof. reflexivity. Qed.

Lemma parse_annotationsPath :
  parse_pointer annotationsPath = Some ["metadata"; "annotations"].
Proof. reflexivity. Qed.

Lemma parse_labels_keyPath (k : string) :
  parse_pointer (keyPath labelsPath k) = Some ["metadata"; "labels"; k].
Proof.
  unfold keyPath, labelsPath. simpl.
  change ("" +:+ escape k) with (escape k).
  rewrite split_slash_escape. simpl. by rewrite unescape_escape.
Qed.

Lemma parse_annotations_keyPath (k : string) :
  parse_pointer (keyPath annotationsPath k)
  = Some ["metadata"; "annotations"; k].
Proof.
  unfold keyPath, annotationsPath. simpl.
  change ("" +:+ escape k) with (escape k).
  rewrite split_slash_escape. simpl. by rewrite unescape_escape.
Qed.

Lemma keyPath_inj (base k k' : string) :
  keyPath base k = keyPath base k' → k = k'.
Proof.
  unfold keyPath. intros H. apply append_inj_l in H.
  apply (append_inj_l "/") in H. by apply escape_inj.
Qed.

Lemma keyPath_ne_base (base k : string) : keyPath base k ≠ base.
Proof.
  unfold keyPath. apply append_ne_self.
  change ("/" +:+ escape k) with (String "/" (escape k)). done.
Qed.

(** ** The synthesizer emits what section 4.3 asks for *)

Lemma lookup_unique {A B} (l : list (A * B)) (k : A) (v v' : B) :
  NoDup (map fst l) → (k, v) ∈ l → (k, v') ∈ l → v = v'.
Proof.
  induction l as [|[a b] l IH]; simpl; intros Hnd Hv Hv'.
  - by apply elem_of_nil in Hv.
  - apply NoDup_cons in Hnd as [Ha Hnd].
    apply elem_of_cons in Hv as [Hv|Hv];
      apply elem_of_cons in Hv' as [Hv'|Hv']; simplify_eq.
    + done.
    + exfalso. apply Ha. apply list_elem_of_fmap. by exists (a, v').
    + exfalso. apply Ha. apply list_elem_of_fmap. by exists (a, v).
    + by apply IH.
Qed.

Lemma operations_Synthesize labels annotations additions :
  operations (Synthesize labels annotations additions)
  = parentOps labelsPath labels (Labels additions)
    ++ parentOps annotationsPath annotations (Annotations additions)
    ++ addOps labelsPath labels (Labels additions)
    ++ addOps annotationsPath annotations (Annotations additions)
    ++ replaceOps labelsPath labels (Labels additions)
    ++ replaceOps annotationsPath annotations (Annotations additions).
Proof. unfold Synthesize. by destruct (_ ++ _). Qed.

Lemma elem_of_submapOps base current desired o :
  o ∈ parentOps base current desired
      ++ addOps base current desired ++ replaceOps base current desired
  ↔ emitted base current desired o.
Proof.
  rewrite !elem_of_app. split.
  - intros [H|[H|H]].
    + unfold parentOps in H. destruct current; [by apply elem_of_nil in H|].
      destruct desired as [|kv rest] eqn:Hd; [by apply elem_of_nil in H|].
      apply list_elem_of_singleton in H as ->. by constructor.
    + unfold addOps in H. destruct current as [m|]; [|by apply elem_of_nil in H].
      apply list_elem_of_In, in_flat_map in H as ([k v] & Hkv & H).
      apply list_elem_of_In in Hkv. simpl in H.
      destruct (alookup k m) eqn:Hk; [done|].
      destruct H as [<-|[]]. by eapply emitted_add.
    + unfold replaceOps in H.
      destruct current as [m|]; [|by apply elem_of_nil in H].
      apply list_elem_of_In, in_flat_map in H as ([k v] & Hkv & H).
      apply list_elem_of_In in Hkv. simpl in H.
      destruct (alookup k m) as [x|] eqn:Hk; [|done].
      destruct (sameValue x v) eqn:Hx; [done|].
      destruct H as [<-|[]]. by eapply emitted_replace.
  - intros [Hc Hd|m k v Hc Hkv Hk|m k v x Hc Hkv Hk Hx]; subst current.
    + left. destruct desired; [done|]. by apply list_elem_of_singleton.
    + right. left. simpl. apply list_elem_of_In, in_flat_map.
      exists (k, v). split; [by apply list_elem_of_In|].
      simpl. rewrite Hk. by left.
    + right. right. simpl. apply list_elem_of_In, in_flat_map.
      exists (k, v). split; [by apply list_elem_of_In|].
      simpl. rewrite Hk, Hx. by left.
Qed.

Lemma elem_of_Synthesize labels annotations additions o :
  o ∈ operations (Synthesize labels annotations additions)
  ↔ emitted labelsPath labels (Labels additions) o
    ∨ emitted annotationsPath annotations (Annotations additions) o.
Proof.
  rewrite operations_Synthesize, <- !elem_of_submapOps, !elem_of_app.
  tauto.
Qed.

(** ** One submap under a patch *)

Lemma get_member_hasMetadata (name : string) (object x : value) :
  get ["metadata"; name] object = Some x → hasMetadata object.
Proof.
  unfold hasMetadata. simpl. destruct object as [| | | |top]; try done.
  destruct (alookup "metadata" top) as [[| | | |meta]|]; try done.
  by eexists.
Qed.

Lemma alookup_submapValue (desired : list (string * string)) (k v : string) :
  NoDup (map fst desired) → (k, v) ∈ desired →
  alookup k (map (λ kv, (kv.1, VStr kv.2)) desired) = Some (VStr v).
Proof.
  induction desired as [|[k' v'] desired IH]; simpl; intros Hnd Hin.
  - by apply elem_of_nil in Hin.
  - apply NoDup_cons in Hnd as [Hk' Hnd].
    apply elem_of_cons in Hin as [Heq|Hin].
    + simplify_eq. by rewrite String.eqb_refl.
    + destruct (String.eqb k' k) eqn:Hk; [|by apply IH].
      apply String.eqb_eq in Hk as ->. exfalso. apply Hk'.
      apply list_elem_of_fmap. by exists (k, v).
Qed.

Section OneSubmap.

Variables name base : string.
Hypothesis parse_base : parse_pointer base = Some ["metadata"; name].
Hypothesis parse_key :
  ∀ k, parse_pointer (keyPath base k) = Some ["metadata"; name; k].

Variable desired : list (string * string).
Hypothesis desired_distinct : NoDup (map fst desired).

Variable current : option (list (string * value)).

(** What applying an emitted operation does to the submap. *)
Lemma apply_emitted (o : operation) (object object' : value) :
  emitted base current desired o →
  apply_operation o object = Some object' →
  (get ["metadata"; name] object' = Some (val o) ∧ path o = base
   ∨ ∃ m k, get ["metadata"; name] object = Some (VMap m)
            ∧ get ["metadata"; name] object' = Some (VMap (aset k (val o) m))
            ∧ path o = keyPath base k)
  ∧ (∀ other, other ≠ name →
       get ["metadata"; other] object' = get ["metadata"; other] object)
  ∧ (∀ field, field ≠ "metadata" → get [field] object' = get [field] object).
Proof.
  unfold apply_operation.
  intros [Hc Hd|m k v Hc Hkv Hk|m k v x Hc Hkv Hk Hx]; simpl.
  - rewrite parse_base. intros H. apply put_member in H as (H1 & H2 & H3).
    split; [by left|done].
  - rewrite parse_key. intros H.
    apply put_key in H as (m' & H0 & H1 & H2 & H3).
    split; [right; by exists m', k|done].
  - rewrite parse_key. intros H.
    apply put_key in H as (m' & H0 & H1 & H2 & H3).
    split; [right; by exists m', k|done].
Qed.

Lemma emitted_leaves (other : string) (o : operation) :
  other ≠ name → emitted base current desired o → leaves other o.
Proof.
  intros Hne Hem object object' Happly.
  destruct (apply_emitted o object object' Hem Happly) as (Hown & Hother & _).
  split; [by apply Hother|].
  destruct Hown as [[H _]|(m & k & _ & H & _)];
    by eapply get_member_hasMetadata.
Qed.

Lemma emitted_settles (o : operation) (object object' : value) (k v : string) :
  emitted base current desired o → settles base desired k v o →
  (k, v) ∈ desired →
  apply_operation o object = Some object' →
  holds name k v object'.
Proof.
  intros Hem Hsettles Hkv Happly.
  destruct (apply_emitted o object object' Hem Happly) as (Hown & _).
  unfold holds, submap.
  destruct Hsettles as [->|[kind ->]]; cbn [val path op] in Hown.
  - destruct Hown as [[H _]|(m & k' & _ & _ & Hpath)].
    + rewrite H. eexists. split; [done|]. by apply alookup_submapValue.
    + symmetry in Hpath. by apply keyPath_ne_base in Hpath.
  - destruct Hown as [[_ Hpath]|(m & k' & _ & H & Hpath)].
    + by apply keyPath_ne_base in Hpath.
    + apply keyPath_inj in Hpath as <-. rewrite H. eexists. split; [done|].
      apply alookup_aset_eq.
Qed.

Lemma step_holds (o : operation) (object object' : value) (k v : string) :
  emitted base current desired o ∨ leaves name o →
  apply_operation o object = Some object' →
  (k, v) ∈ desired → holds name k v object → holds name k v object'.
Proof.
  intros [Hem|Hleaves] Happly Hkv (m & Hm & Hk).
  - destruct (apply_emitted o object object' Hem Happly) as (Hown & _).
    unfold holds, submap in *.
    destruct Hown as [[H Hpath]|(m' & k' & H0 & H & Hpath)].
    + rewrite H. destruct Hem as [Hc Hd|? k' v' _ _ _|? k' v' ? _ _ _ _];
        cbn [val path op] in *.
      * eexists. split; [done|]. by apply alookup_submapValue.
      * by apply keyPath_ne_base in Hpath.
      * by apply keyPath_ne_base in Hpath.
    + rewrite H0 in Hm. injection Hm as ->. rewrite H.
      eexists. split; [done|].
      destruct (decide (k' = k)) as [->|Hne]; [|by rewrite alookup_aset_ne].
      rewrite alookup_aset_eq. f_equal.
      destruct Hem as [Hc Hd|? k0 v0 _ Hkv0 _|? k0 v0 ? _ Hkv0 _ _];
        cbn [val path op] in *.
      * symmetry in Hpath. by apply keyPath_ne_base in Hpath.
      * apply keyPath_inj in Hpath as ->. f_equal.
        by apply (lookup_unique desired k).
      * apply keyPath_inj in Hpath as ->. f_equal.
        by apply (lookup_unique desired k).
  - destruct (Hleaves object object' Happly) as [Heq _].
    unfold holds, submap in *. rewrite Heq. by exists m.
Qed.

Lemma patch_holds (ops : list operation) (object object' : value)
    (k v : string) :
  Forall (λ o, emitted base current desired o ∨ leaves name o) ops →
  apply_patch ops object = Some object' →
  (k, v) ∈ desired →
  holds name k v object
  ∨ Exists (λ o, emitted base current desired o ∧ settles base desired k v o)
      ops →
  holds name k v object'.
Proof.
  intros Hops. revert object.
  induction Hops as [|o ops Ho _ IH]; intros object Happly Hkv Hstart; simpl in *.
  - injection Happly as <-. destruct Hstart as [H|H]; [done|].
    by apply Exists_nil in H.
  - destruct (apply_operation o object) as [next|] eqn:Hstep; [|done].
    apply (IH next Happly Hkv).
    destruct Hstart as [H|H].
    + left. by eapply step_holds.
    + apply Exists_cons in H as [[Hem Hs]|H]; [left|by right].
      by eapply emitted_settles.
Qed.

(** Every desired key holds already, or an emitted operation settles
    it. *)
Lemma emitted_covers (k v : string) :
  (k, v) ∈ desired →
  (∃ m, current = Some m ∧ alookup k m = Some (VStr v))
  ∨ ∃ o, emitted base current desired o ∧ settles base desired k v o.
Proof.
  intros Hkv. destruct current as [m|] eqn:Hc.
  - destruct (alookup k m) as [x|] eqn:Hk.
    + destruct (sameValue x v) eqn:Hx.
      * left. exists m. split; [done|]. rewrite Hk.
        destruct x; try done. simpl in Hx. by apply String.eqb_eq in Hx as ->.
      * right. eexists. split; [by eapply emitted_replace|]. right. by eexists.
    + right. eexists. split; [by eapply emitted_add|]. right. by eexists.
  - right. eexists. split; [|by left]. constructor; [done|].
    intros ->. by apply elem_of_nil in Hkv.
Qed.

End OneSubmap.

(** When every desired key holds, nothing is emitted. *)
Lemma settled_emits_nothing (name base : string)
    (desired : list (string * string)) (object : value) (o : operation) :
  (∀ k v, (k, v) ∈ desired → holds name k v object) →
  ¬ emitted base (submap name object) desired o.
Proof.
  intros Hall [Hc Hd|m k v Hc Hkv Hk|m k v x Hc Hkv Hk Hx].
  - destruct desired as [|[k v] desired]; [done|].
    destruct (Hall k v) as (m & Hm & _); [by left|]. congruence.
  - destruct (Hall k v Hkv) as (m' & Hm & Hk'). congruence.
  - destruct (Hall k v Hkv) as (m' & Hm & Hk').
    assert (x = VStr v) as -> by congruence.
    simpl in Hx. by rewrite String.eqb_refl in Hx.
Qed.

(** ** Applying what was emitted *)

Lemma submap_Some (name : string) (object : value) (m : list (string * value)) :
  submap name object = Some m ↔ get ["metadata"; name] object = Some (VMap m).
Proof.
  unfold submap. destruct (get ["metadata"; name] object) as [[| | | |m']|];
    split; intros H; by simplify_eq.
Qed.

Section Readiness.

Variables name base : string.
Hypothesis parse_base : parse_pointer base = Some ["metadata"; name].
Hypothesis parse_key :
  ∀ k, parse_pointer (keyPath base k) = Some ["metadata"; name; k].

Variable desired : list (string * string).
Variable current : option (list (string * value)).

Lemma emitted_applies (o : operation) (object : value) :
  emitted base current desired o →
  hasMetadata object → ready name current object →
  is_Some (apply_operation o object).
Proof.
  unfold apply_operation.
  intros [Hc Hd|m k v Hc Hkv Hk|m k v x Hc Hkv Hk Hx] [meta Hmeta] Hready;
    cbn [path op val].
  - rewrite parse_base. by eapply put_member_succeeds.
  - rewrite parse_key. subst current. destruct Hready as (m' & Hm' & _).
    apply submap_Some in Hm'. eapply put_key_succeeds; [done|by left].
  - rewrite parse_key. subst current. destruct Hready as (m' & Hm' & Hkeys).
    apply submap_Some in Hm'. eapply put_key_succeeds; [done|].
    right. apply Hkeys. rewrite Hk. by eexists.
Qed.

Lemma step_ready (o : operation) (object object' : value) :
  emitted base current desired o ∨ leaves name o →
  apply_operation o object = Some object' →
  ready name current object → ready name current object'.
Proof.
  intros Ho Happly Hready. unfold ready in *.
  destruct current as [m|] eqn:Hc; [|done].
  destruct Hready as (m' & Hm' & Hkeys).
  destruct Ho as [Hem|Hleaves].
  - destruct (apply_emitted name base parse_base parse_key desired (Some m)
                o object object' Hem Happly) as (Hown & _).
    destruct Hown as [[_ Hpath]|(m0 & k & H0 & H1 & _)].
    + destruct Hem; cbn [path] in Hpath; try done;
        by apply keyPath_ne_base in Hpath.
    + apply submap_Some in Hm'. rewrite H0 in Hm'. injection Hm' as ->.
      eexists. split; [by apply submap_Some|].
      intros k' Hk'. by apply alookup_aset_is_Some, Hkeys.
  - destruct (Hleaves object object' Happly) as [Heq _].
    exists m'. split; [|done]. unfold submap in *. by rewrite Heq.
Qed.

Lemma step_hasMetadata (o : operation) (object object' : value) :
  emitted base current desired o →
  apply_operation o object = Some object' → hasMetadata object'.
Proof.
  intros Hem Happly.
  destruct (apply_emitted name base parse_base parse_key desired current
              o object object' Hem Happly) as (Hown & _).
  destruct Hown as [[H _]|(m & k & _ & H & _)];
    by eapply get_member_hasMetadata.
Qed.

Lemma emitted_prefix (o : operation) :
  emitted base current desired o → Str.HasPrefix (path o) base = true.
Proof.
  intros [Hc Hd|m k v Hc Hkv Hk|m k v x Hc Hkv Hk Hx]; cbn [path].
  - rewrite <- (HasPrefix_append base ""). f_equal.
    clear. induction base as [|c b IH]; [done|].
    change (String c b +:+ "") with (String c (b +:+ "")). by rewrite <- IH.
  - apply HasPrefix_append.
  - apply HasPrefix_append.
Qed.

End Readiness.

(** ** The two submaps together *)

Section Object.

Variable additions : Additions.
Variable object : value.

Abbreviation emittedLabels :=
  (emitted labelsPath (submap "labels" object) (Labels additions)).
Abbreviation emittedAnnotations :=
  (emitted annotationsPath (submap "annotations" object)
     (Annotations additions)).

Lemma emittedLabels_leaves (o : operation) :
  emittedLabels o → leaves "annotations" o.
Proof.
  apply (emitted_leaves "labels" labelsPath parse_labelsPath
           parse_labels_keyPath). done.
Qed.

Lemma emittedAnnotations_leaves (o : operation) :
  emittedAnnotations o → leaves "labels" o.
Proof.
  apply (emitted_leaves "annotations" annotationsPath parse_annotationsPath
           parse_annotations_keyPath). done.
Qed.

Lemma patch_applies (ops : list operation) (start : value) :
  Forall (λ o, emittedLabels o ∨ emittedAnnotations o) ops →
  hasMetadata start →
  ready "labels" (submap "labels" object) start →
  ready "annotations" (submap "annotations" object) start →
  is_Some (apply_patch ops start).
Proof.
  intros Hops. revert start.
  induction Hops as [|o ops Ho _ IH]; intros start Hmeta Hl Ha; simpl.
  - by eexists.
  - destruct Ho as [Ho|Ho].
    + destruct (emitted_applies "labels" labelsPath parse_labelsPath
                  parse_labels_keyPath _ _ o start Ho Hmeta Hl)
        as [next Hnext].
      rewrite Hnext. apply IH.
      * by eapply (step_hasMetadata "labels" labelsPath parse_labelsPath
                     parse_labels_keyPath _ _ o start).
      * eapply (step_ready "labels" labelsPath parse_labelsPath
                  parse_labels_keyPath (Labels additions)); [by left|done..].
      * eapply (step_ready "annotations" annotationsPath
                  parse_annotationsPath parse_annotations_keyPath
                  (Annotations additions));
          [right; by apply emittedLabels_leaves|done..].
    + destruct (emitted_applies "annotations" annotationsPath
                  parse_annotationsPath parse_annotations_keyPath _ _ o start
                  Ho Hmeta Ha) as [next Hnext].
      rewrite Hnext. apply IH.
      * by eapply (step_hasMetadata "annotations" annotationsPath
                     parse_annotationsPath parse_annotations_keyPath _ _
                     o start).
      * eapply (step_ready "labels" labelsPath parse_labelsPath
                  parse_labels_keyPath (Labels additions));
          [right; by apply emittedAnnotations_leaves|done..].
      * eapply (step_ready "annotations" annotationsPath
                  parse_annotationsPath parse_annotations_keyPath
                  (Annotations additions));
          [by left|done..].
Qed.

Lemma ready_start (name : string) :
  ready name (submap name object) object.
Proof.
  unfold ready. destruct (submap name object) as [m|] eqn:Hm; [|done].
  by exists m.
Qed.

End Object.

(** ** The cases of rule 2 *)

Lemma sameValue_true (x : value) (v : string) :
  sameValue x v = true ↔ x = VStr v.
Proof.
  destruct x; simpl; try (split; [done|congruence]).
  rewrite String.eqb_eq. split; congruence.
Qed.

Lemma escape_escapedKey (k : string) : escape k = escapedKey k.
Proof.
  unfold escapedKey. induction k as [|c k IH]; [done|].
  cbn [escape replaceAll].
  destruct (Ascii.eqb c "~") eqn:Ht.
  - change ("~0" +:+ ?s) with (String "~" (String "0" s)).
    cbn [replaceAll]. cbn. by rewrite IH.
  - cbn [replaceAll]. destruct (Ascii.eqb c "/") eqn:Hs.
    + by rewrite IH.
    + by rewrite IH.
Qed.

Lemma keyPath_perKeyPath (base k : string) : keyPath base k = perKeyPath base k.
Proof. unfold keyPath, perKeyPath. by rewrite escape_escapedKey. Qed.

Lemma filter_path_nil (p : string) (l : list operation) :
  (∀ o, o ∈ l → path o ≠ p) → filter (λ o, path o = p) l = [].
Proof.
  intros H. induction l as [|a l IH]; [done|].
  rewrite filter_cons_False; [|apply H; by left].
  apply IH. intros o Ho. apply H. by right.
Qed.

Lemma filter_path_all (p : string) (l : list operation) :
  (∀ o, o ∈ l → path o = p) → filter (λ o, path o = p) l = l.
Proof.
  intros H. induction l as [|a l IH]; [done|].
  rewrite filter_cons_True; [|apply H; by left].
  f_equal. apply IH. intros o Ho. apply H. by right.
Qed.

(** The operations an emitter gives for the desired keys, at the path of
    one of them. *)
Lemma filter_key_flat_map (base : string)
    (f : string * string → list operation)
    (desired : list (string * string)) (k v : string) :
  (∀ kv o, o ∈ f kv → path o = keyPath base kv.1) →
  NoDup (map fst desired) → (k, v) ∈ desired →
  filter (λ o, path o = keyPath base k) (flat_map f desired) = f (k, v).
Proof.
  intros Hf Hnd Hkv.
  assert (∀ l : list (string * string), k ∉ map fst l →
            filter (λ o, path o = keyPath base k) (flat_map f l) = [])
    as Hnone.
  { intros l Hl. apply filter_path_nil. intros o Ho Hpath.
    apply list_elem_of_In, in_flat_map in Ho as (kv & Hin & Ho).
    apply list_elem_of_In in Hin, Ho.
    rewrite (Hf kv o Ho) in Hpath. apply keyPath_inj in Hpath.
    apply Hl. apply list_elem_of_fmap. by exists kv. }
  induction desired as [|[k' v'] rest IH]; [by apply elem_of_nil in Hkv|].
  cbn [flat_map]. rewrite filter_app.
  apply NoDup_cons in Hnd as [Hk' Hnd].
  apply elem_of_cons in Hkv as [Hkv|Hkv].
  - injection Hkv as <- <-.
    rewrite (Hnone rest Hk'), app_nil_r.
    apply filter_path_all. intros o Ho. by apply (Hf (k, v)).
  - rewrite (IH Hnd Hkv).
    rewrite filter_path_nil; [done|].
    intros o Ho Hpath. rewrite (Hf _ o Ho) in Hpath.
    apply keyPath_inj in Hpath. simpl in Hpath. subst k'.
    apply Hk'. apply list_elem_of_fmap. by exists (k, v).
Qed.

Lemma atKey_addOps (base : string) (m : list (string * value))
    (desired : list (string * string)) (k v : string) :
  NoDup (map fst desired) → (k, v) ∈ desired →
  atKey base k (addOps base (Some m) desired)
  = match alookup k m with
    | None => [{| op := Add; path := perKeyPath base k; val := VStr v |}]
    | Some _ => []
    end.
Proof.
  intros Hnd Hkv. unfold atKey, addOps.
  rewrite <- !keyPath_perKeyPath.
  rewrite (filter_key_flat_map base _ desired k v); [done| |done..].
  intros [k' v'] o Ho. cbn [fst snd] in *.
  destruct (alookup k' m); [by apply elem_of_nil in Ho|].
  by apply list_elem_of_singleton in Ho as ->.
Qed.

Lemma atKey_replaceOps (base : string) (m : list (string * value))
    (desired : list (string * string)) (k v : string) :
  NoDup (map fst desired) → (k, v) ∈ desired →
  atKey base k (replaceOps base (Some m) desired)
  = match alookup k m with
    | Some x =>
        if sameValue x v then []
        else [{| op := Replace; path := perKeyPath base k; val := VStr v |}]
    | None => []
    end.
Proof.
  intros Hnd Hkv. unfold atKey, replaceOps.
  rewrite <- !keyPath_perKeyPath.
  rewrite (filter_key_flat_map base _ desired k v); [done| |done..].
  intros [k' v'] o Ho. cbn [fst snd] in *.
  destruct (alookup k' m) as [x|]; [|by apply elem_of_nil in Ho].
  destruct (sameValue x v'); [by apply elem_of_nil in Ho|].
  by apply list_elem_of_singleton in Ho as ->.
Qed.

(** Operations under the other submap are not at a path of this one. *)
Lemma atKey_other (base other k : string)
    (current : option (list (string * value)))
    (desired : list (string * string)) (l : list operation) :
  (∀ k', Str.HasPrefix (keyPath base k') other = false) →
  (∀ o, o ∈ l → emitted other current desired o) →
  atKey base k l = [].
Proof.
  intros Hother Hl. apply filter_path_nil. intros o Ho Hpath.
  apply Hl, emitted_prefix in Ho.
  rewrite Hpath, <- keyPath_perKeyPath, Hother in Ho. done.
Qed.

Lemma emitted_parts (base : string) (current : option (list (string * value)))
    (desired : list (string * string)) (o : operation) :
  o ∈ parentOps base current desired ∨ o ∈ addOps base current desired
  ∨ o ∈ replaceOps base current desired →
  emitted base current desired o.
Proof. intros H. apply elem_of_submapOps. rewrite !elem_of_app. tauto. Qed.

Lemma atKey_app (base k : string) (l1 l2 : list operation) :
  atKey base k (l1 ++ l2) = atKey base k l1 ++ atKey base k l2.
Proof. apply filter_app. Qed.

Lemma HasPrefix_refl (s : string) : Str.HasPrefix s s = true.
Proof.
  induction s as [|c s IH]; [done|]. simpl. by rewrite Ascii.eqb_refl, IH.
Qed.

Lemma perKey_cases (base : string) (desired : list (string * string))
    (m : list (string * value)) (k v : string) (ops : list operation) :
  NoDup (map fst desired) → (k, v) ∈ desired →
  atKey base k ops
  = atKey base k (addOps base (Some m) desired)
    ++ atKey base k (replaceOps base (Some m) desired) →
  (∀ o, o ∈ ops →
        emitted base (Some m) desired o
        ∨ Str.HasPrefix (path o) base = false) →
  perKey base desired m k v ops.
Proof.
  intros Hnd Hkv Hat Hops.
  rewrite (atKey_addOps base m desired k v Hnd Hkv),
          (atKey_replaceOps base m desired k v Hnd Hkv) in Hat.
  split; [|split; [|split; [|split]]].
  - intros Hk. by rewrite Hat, Hk.
  - intros Hk. rewrite Hat, Hk. simpl. by rewrite String.eqb_refl.
  - intros x Hk Hx. rewrite Hat, Hk.
    destruct (sameValue x v) eqn:Hsame; [|done].
    by apply sameValue_true in Hsame.
  - intros o Ho Hpath. destruct (Hops o Ho) as [Hem|Hpre].
    + inversion Hem as [Hc|m' k' v' Hc Hin Hk'|m' k' v' x Hc Hin Hk' Hx];
        subst o; cbn [path] in Hpath; [done|..];
        by apply keyPath_ne_base in Hpath.
    + rewrite Hpath, HasPrefix_refl in Hpre. done.
  - intros o Ho Hpre. destruct (Hops o Ho) as [Hem|Hno]; [|congruence].
    inversion Hem as [Hc|m' k' v' Hc Hin Hk'|m' k' v' x Hc Hin Hk' Hx];
      subst; [done|..]; exists k', v'; cbn [path val];
      by rewrite keyPath_perKeyPath.
Qed.

Lemma labels_key_not_annotations (k : string) :
  Str.HasPrefix (keyPath labelsPath k) annotationsPath = false.
Proof. reflexivity. Qed.

Lemma annotations_key_not_labels (k : string) :
  Str.HasPrefix (keyPath annotationsPath k) labelsPath = false.
Proof. reflexivity. Qed.

Lemma emittedAnnotations_not_labels
    (current : option (list (string * value)))
    (desired : list (string * string)) (o : operation) :
  emitted annotationsPath current desired o →
  Str.HasPrefix (path o) labelsPath = false.
Proof. by intros []. Qed.

Lemma emittedLabels_not_annotations
    (current : option (list (string * value)))
    (desired : list (string * string)) (o : operation) :
  emitted labelsPath current desired o →
  Str.HasPrefix (path o) annotationsPath = false.
Proof. by intros []. Qed.

(** C4. With the submap present on the object, what the patch of the
    synthesizer has at the escaped per-key path of a desired key (the
    key with [~] written [~0] and [/] written [~1]) is: exactly one [add]
    with the desired value when the key is absent, nothing when the key
    has the desired value, exactly one [replace] with the desired value
    when the key has another value.  The patch has no operation on the
    submap as a whole, and every operation it has under the submap is at
    the per-key path of a desired key.  For the labels and for the
    annotations. *)
Theorem synthesizer_per_key
    (labels annotations : option (list (string * value)))
    (additions : Additions) (m : list (string * value)) (k v : string) :
  wellFormed additions →
  (labels = Some m → (k, v) ∈ Labels additions →
   perKey labelsPath (Labels additions) m k v
     (operations (Synthesize labels annotations additions)))
  ∧ (annotations = Some m → (k, v) ∈ Annotations additions →
     perKey annotationsPath (Annotations additions) m k v
       (operations (Synthesize labels annotations additions))).
Proof.
  intros [Hl Ha]. split.
  - intros -> Hkv. apply perKey_cases; [done..| |].
    + rewrite operations_Synthesize, !atKey_app.
      rewrite (atKey_other labelsPath annotationsPath k annotations
                 (Annotations additions)
                 (parentOps annotationsPath annotations (Annotations additions))),
              (atKey_other labelsPath annotationsPath k annotations
                 (Annotations additions)
                 (addOps annotationsPath annotations (Annotations additions))),
              (atKey_other labelsPath annotationsPath k annotations
                 (Annotations additions)
                 (replaceOps annotationsPath annotations (Annotations additions)));
        try (intros; apply emitted_parts; tauto);
        try apply labels_key_not_annotations.
      change (atKey labelsPath k (parentOps labelsPath (Some m) _))
        with (@nil operation).
      cbn [app]. by rewrite ?app_nil_r.
    + intros o Ho. apply elem_of_Synthesize in Ho as [Hem|Hem]; [by left|].
      right. by eapply emittedAnnotations_not_labels.
  - intros -> Hkv. apply perKey_cases; [done..| |].
    + rewrite operations_Synthesize, !atKey_app.
      rewrite (atKey_other annotationsPath labelsPath k labels
                 (Labels additions)
                 (parentOps labelsPath labels (Labels additions))),
              (atKey_other annotationsPath labelsPath k labels
                 (Labels additions)
                 (addOps labelsPath labels (Labels additions))),
              (atKey_other annotationsPath labelsPath k labels
                 (Labels additions)
                 (replaceOps labelsPath labels (Labels additions)));
        try (intros; apply emitted_parts; tauto);
        try apply annotations_key_not_labels.
      change (atKey annotationsPath k (parentOps annotationsPath (Some m) _))
        with (@nil operation).
      cbn [app]. by rewrite ?app_nil_r.
    + intros o Ho. apply elem_of_Synthesize in Ho as [Hem|Hem]; [|by left].
      right. by eapply emittedLabels_not_annotations.
Qed.

Section Engine.

Variable labelSelectorMatches : string → value → bool.
Variable fieldSelectorMatches : string → value → bool.

Abbreviation Engine := (Engine labelSelectorMatches fieldSelectorMatches).

Lemma Engine_emitted (r : Rule) (object : value) (o : operation) :
  o ∈ operations (Engine r object) →
  emitted labelsPath (submap "labels" object) (Labels (Payload r)) o
  ∨ emitted annotationsPath (submap "annotations" object)
      (Annotations (Payload r)) o.
Proof.
  unfold engine.Engine. destruct (matches _ _ _ _).
  - by rewrite elem_of_Synthesize.
  - intros H. by apply elem_of_nil in H.
Qed.

Lemma Engine_settled (r : Rule) (object : value) :
  (∀ k v, (k, v) ∈ Labels (Payload r) → holds "labels" k v object) →
  (∀ k v, (k, v) ∈ Annotations (Payload r) →
          holds "annotations" k v object) →
  Engine r object = NoChange.
Proof.
  intros Hl Ha. unfold engine.Engine. destruct (matches _ _ _ _); [|done].
  assert (operations (Synthesize (submap "labels" object)
                        (submap "annotations" object) (Payload r)) = [])
    as Hnil.
  { destruct (operations _) as [|o ops] eqn:Hops; [done|]. exfalso.
    assert (o ∈ operations (Synthesize (submap "labels" object)
                              (submap "annotations" object) (Payload r)))
      as Ho by (rewrite Hops; by left).
    apply elem_of_Synthesize in Ho as [Ho|Ho];
      revert Ho; by apply settled_emits_nothing. }
  unfold Synthesize in *. by destruct (_ ++ _).
Qed.

Lemma Engine_cases (r : Rule) (object : value) :
  Engine r object = NoChange
  ∨ ∀ o, o ∈ operations (Engine r object) ↔
         emitted labelsPath (submap "labels" object) (Labels (Payload r)) o
         ∨ emitted annotationsPath (submap "annotations" object)
             (Annotations (Payload r)) o.
Proof.
  unfold engine.Engine. destruct (matches _ _ _ _); [right|by left].
  intros o. apply elem_of_Synthesize.
Qed.

(** C3. When the additions of the rule are mappings, an object obtained
    by applying the result of the engine gets the empty-patch sentinel
    from the engine; and on an object that has a metadata mapping the
    result of the engine does apply. *)
Theorem engine_idempotent (r : Rule) (object : value) :
  wellFormed (Payload r) →
  (∀ object', apply (Engine r object) object = Some object' →
              Engine r object' = NoChange)
  ∧ (hasMetadata object →
     ∃ object', apply (Engine r object) object = Some object'
                ∧ Engine r object' = NoChange).
Proof.
  intros [Hndl Hnda].
  assert (∀ object', apply (Engine r object) object = Some object' →
                     Engine r object' = NoChange) as Hidem.
  { intros object' Happly. unfold apply in Happly.
    destruct (Engine_cases r object) as [Hno|Hops].
    { rewrite Hno in Happly. simpl in Happly. by injection Happly as <-. }
    apply Engine_settled.
    - intros k v Hkv.
      apply (patch_holds "labels" labelsPath parse_labelsPath
               parse_labels_keyPath (Labels (Payload r)) Hndl
               (submap "labels" object) (operations (Engine r object))
               object object' k v); [|done..|].
      + apply Forall_forall. intros o Ho.
        destruct (proj1 (Hops o) Ho) as [H|H]; [by left|right].
        by eapply emittedAnnotations_leaves.
      + destruct (emitted_covers labelsPath (Labels (Payload r)) Hndl
                    (submap "labels" object) k v Hkv)
          as [(m & Hm & Hk)|(o & Hem & Hs)].
        * left. by exists m.
        * right. apply Exists_exists. exists o. split; [|done].
          apply Hops. by left.
    - intros k v Hkv.
      apply (patch_holds "annotations" annotationsPath parse_annotationsPath
               parse_annotations_keyPath (Annotations (Payload r)) Hnda
               (submap "annotations" object) (operations (Engine r object))
               object object' k v); [|done..|].
      + apply Forall_forall. intros o Ho.
        destruct (proj1 (Hops o) Ho) as [H|H]; [right|by left].
        by eapply emittedLabels_leaves.
      + destruct (emitted_covers annotationsPath (Annotations (Payload r))
                    Hnda (submap "annotations" object) k v Hkv)
          as [(m & Hm & Hk)|(o & Hem & Hs)].
        * left. by exists m.
        * right. apply Exists_exists. exists o. split; [|done].
          apply Hops. by right. }
  split; [done|].
  intros Hmeta.
  destruct (patch_applies (Payload r) object (operations (Engine r object))
              object) as [object' Happly].
  - apply Forall_forall. apply Engine_emitted.
  - done.
  - apply ready_start.
  - apply ready_start.
  - exists object'. split; [done|]. by apply Hidem.
Qed.

(** Emitted operations change nothing outside the two submaps. *)
Lemma patch_scope (additions : Additions) (object : value)
    (ops : list operation) (start object' : value) :
  Forall (λ o, emitted labelsPath (submap "labels" object) (Labels additions) o
               ∨ emitted annotationsPath (submap "annotations" object)
                   (Annotations additions) o) ops →
  apply_patch ops start = Some object' →
  (∀ field, field ≠ "metadata" → get [field] object' = get [field] start)
  ∧ (∀ member, member ≠ "labels" → member ≠ "annotations" →
       get ["metadata"; member] object' = get ["metadata"; member] start).
Proof.
  intros Hops. revert start.
  induction Hops as [|o ops Ho _ IH]; intros start Happly; simpl in Happly.
  - by injection Happly as <-.
  - destruct (apply_operation o start) as [next|] eqn:Hstep; [|done].
    destruct (IH next Happly) as [IHf IHm].
    assert ((∀ field, field ≠ "metadata" → get [field] next = get [field] start)
            ∧ (∀ member, member ≠ "labels" → member ≠ "annotations" →
                 get ["metadata"; member] next
                 = get ["metadata"; member] start)) as [Hf Hm].
    { destruct Ho as [Ho|Ho].
      - destruct (apply_emitted "labels" labelsPath parse_labelsPath
                    parse_labels_keyPath _ _ o start next Ho Hstep)
          as (_ & Hother & Hfield).
        split; [done|]. intros member Hl _. by apply Hother.
      - destruct (apply_emitted "annotations" annotationsPath
                    parse_annotationsPath parse_annotations_keyPath _ _
                    o start next Ho Hstep) as (_ & Hother & Hfield).
        split; [done|]. intros member _ Ha. by apply Hother. }
    split.
    + intros field Hne. by rewrite IHf, Hf.
    + intros member Hl Ha. by rewrite IHm, Hm.
Qed.

(** C5. Every operation of a patch of the engine has a path that begins
    with /metadata/labels or with /metadata/annotations; and applying the
    patch changes no field of the object other than [metadata], and no
    member of [metadata] other than [labels] and [annotations]. *)
Theorem engine_scope (r : Rule) (object : value) :
  (∀ o, o ∈ operations (Engine r object) →
        Str.HasPrefix (path o) "/metadata/labels" = true
        ∨ Str.HasPrefix (path o) "/metadata/annotations" = true)
  ∧ (∀ object', apply (Engine r object) object = Some object' →
       (∀ field, field ≠ "metadata" →
                 get [field] object' = get [field] object)
       ∧ (∀ member, member ≠ "labels" → member ≠ "annotations" →
            get ["metadata"; member] object'
            = get ["metadata"; member] object)).
Proof.
  split.
  - intros o Ho. apply Engine_emitted in Ho as [Ho|Ho].
    + left. by apply emitted_prefix in Ho.
    + right. by apply emitted_prefix in Ho.
  - intros object' Happly.
    apply (patch_scope (Payload r) object (operations (Engine r object)));
      [|done].
    apply Forall_forall. apply Engine_emitted.
Qed.

End Engine.

(** ** The scenarios of section 8 *)

Example scenario_S1 :
  sample.Engine (sample.engineRule [("a", "1")] [])
    (VMap [("metadata", VMap [("name", VStr "x")])])
  = Patch [{| op := Add; path := "/metadata/labels";
              val := VMap [("a", VStr "1")] |}].
Proof. reflexivity. Qed.

Example scenario_S2 :
  sample.Engine (sample.engineRule [("a", "new")] [])
    (VMap [("metadata",
            VMap [("labels", VMap [("a", VStr "old"); ("b", VStr "keep")])])])
  = Patch [{| op := Replace; path := "/metadata/labels/a"; val := VStr "new" |}].
Proof. reflexivity. Qed.

Example scenario_S3 :
  sample.Engine (sample.engineRule [("a", "1")] [])
    (VMap [("metadata", VMap [("labels", VMap [("a", VStr "1")])])])
  = NoChange.
Proof. reflexivity. Qed.

Example scenario_S5 :
  sample.Engine (sample.engineRule [] [("my.co/slashy~key", "v")])
    sample.bareObject
  = Patch [{| op := Add; path := "/metadata/annotations";
              val := VMap [("my.co/slashy~key", VStr "v")] |}]
  ∧ sample.Engine (sample.engineRule [] [("my.co/slashy~key", "v")])
      sample.labelledObject
    = Patch [{| op := Add;
                path := "/metadata/annotations/my.co~1slashy~0key";
                val := VStr "v" |}].
Proof. split; reflexivity. Qed.

(** ** The properties at the objects of the scenarios *)

Lemma engine_idempotent_witness :
  ∃ object',
    apply (sample.Engine (sample.engineRule [("a", "new"); ("c", "d")]
                            [("my.co/slashy~key", "v")])
             sample.labelledObject) sample.labelledObject = Some object'
    ∧ sample.Engine (sample.engineRule [("a", "new"); ("c", "d")]
                       [("my.co/slashy~key", "v")]) object' = NoChange.
Proof.
  refine (proj2 (engine_idempotent sample.selectorMatches
                   sample.selectorMatches
                   (sample.engineRule [("a", "new"); ("c", "d")]
                      [("my.co/slashy~key", "v")])
                   sample.labelledObject _) _).
  - split; apply (bool_decide_unpack _); vm_compute; reflexivity.
  - eexists. vm_compute. reflexivity.
Defined.

Lemma synthesizer_per_key_witness :
  atKey annotationsPath "my.co/slashy~key"
    (operations
       (Synthesize None (Some [("team", VStr "dev"); ("tier", VStr "gold")])
          {| Labels := [("a", "1")];
             Annotations := [("my.co/slashy~key", "v"); ("team", "ops");
                             ("tier", "gold")] |}))
  = [{| op := Add; path := "/metadata/annotations/my.co~1slashy~0key";
        val := VStr "v" |}].
Proof.
  refine (proj1 (proj2 (synthesizer_per_key None
                          (Some [("team", VStr "dev"); ("tier", VStr "gold")])
                          {| Labels := [("a", "1")];
                             Annotations := [("my.co/slashy~key", "v");
                                             ("team", "ops");
                                             ("tier", "gold")] |}
                          [("team", VStr "dev"); ("tier", VStr "gold")]
                          "my.co/slashy~key" "v" _) _ _) _).
  - split; apply (bool_decide_unpack _); vm_compute; reflexivity.
  - reflexivity.
  - apply (bool_decide_unpack _). vm_compute. reflexivity.
  - reflexivity.
Defined.

Lemma engine_scope_witness :
  let object' :=
    VMap [("metadata",
           VMap [("name", VStr "x");
                 ("labels", VMap [("a", VStr "1")])]);
          ("spec", VMap [])] in
  (∀ field, field ≠ "metadata" →
            get [field] object' = get [field] sample.bareObject)
  ∧ (∀ member, member ≠ "labels" → member ≠ "annotations" →
       get ["metadata"; member] object'
       = get ["metadata"; member] sample.bareObject).
Proof.
  apply (proj2 (engine_scope sample.selectorMatches sample.selectorMatches
                  (sample.engineRule [("a", "1")] []) sample.bareObject)).
  vm_compute. reflexivity.
Defined.

End engine_facts.

(* ===================================================================== *)
(** * Further properties of [pkg/config/config.go] *)

Module config_more.

Import graffiti webhook viper config terms.

Section Validation.

Variable HealthChecker : Type.
Variable LogLevels : gmap string Z.
Variable ValidateLabelSelector : string → option string.
Variable ValidateFieldSelector : string → option string.

Abbreviation Configuration := (Configuration HealthChecker).
Abbreviation checkRule :=
  (checkRule ValidateLabelSelector ValidateFieldSelector).
Abbreviation validateRulesFrom :=
  (validateRulesFrom ValidateLabelSelector ValidateFieldSelector).
Abbreviation validateRules :=
  (@config.validateRules HealthChecker
     ValidateLabelSelector ValidateFieldSelector).
Abbreviation ValidateConfig :=
  (@config.ValidateConfig HealthChecker LogLevels
     ValidateLabelSelector ValidateFieldSelector).
Abbreviation selectorsValid :=
  (selectorsValid ValidateLabelSelector ValidateFieldSelector).
Abbreviation explains :=
  (explains ValidateLabelSelector ValidateFieldSelector).

Lemma firstInvalid_None (validate : string → option string)
    (selectors : list string) :
  firstInvalid validate selectors = None ↔
  ∀ s, s ∈ selectors → validate s = None.
Proof.
  induction selectors as [|a l IH]; simpl.
  - split; [|done]. intros _ s Hs. by apply elem_of_nil in Hs.
  - destruct (validate a) as [err|] eqn:Ha.
    + split; [done|]. intros H. specialize (H a (list_elem_of_here _ _)).
      congruence.
    + rewrite IH. split.
      * intros H s Hs. apply elem_of_cons in Hs as [->|Hs]; [done|by apply H].
      * intros H s Hs. apply H. by right.
Qed.

Lemma firstInvalid_Some (validate : string → option string)
    (selectors : list string) (selector msg : string) :
  firstInvalid validate selectors = Some (selector, msg) →
  selector ∈ selectors ∧ validate selector = Some msg.
Proof.
  induction selectors as [|a l IH]; simpl; [done|].
  destruct (validate a) as [err|] eqn:Ha.
  - intros [= <- <-]. split; [by left|done].
  - intros H. destruct (IH H) as [Hin Hv]. split; [by right|done].
Qed.

Lemma hasAdditions_test (r : Rule) :
  (length (Labels (Additions r)) =? 0)%nat
  && (length (Annotations (Additions r)) =? 0)%nat = false
  ↔ hasAdditions r.
Proof.
  unfold hasAdditions.
  destruct (Labels (Additions r)), (Annotations (Additions r)); simpl;
    split; try done; try (intros _; by (left + right)).
  by intros [?|?].
Qed.

Lemma checkRule_None (names : gmap string bool) (r : Rule) :
  checkRule names r = None ↔
  hasAdditions r ∧ names !! ruleName r = None ∧ selectorsValid r.
Proof.
  unfold config.checkRule, terms.selectorsValid.
  rewrite <- hasAdditions_test, <- !firstInvalid_None.
  destruct (_ && _); [split; [done|by intros [? _]]|].
  destruct (names !! Name (Registration r)) as [b|] eqn:Hn.
  - rewrite bool_decide_eq_true_2 by by eexists.
    unfold ruleName. rewrite Hn. split; [done|]. by intros (_ & ? & _).
  - rewrite bool_decide_eq_false_2 by by intros [? ?].
    unfold ruleName. rewrite Hn.
    destruct (firstInvalid ValidateLabelSelector _) as [[sel err]|].
    + split; [done|]. by intros (_ & _ & ? & _).
    + destruct (firstInvalid ValidateFieldSelector _) as [[sel err]|].
      * split; [done|]. by intros (_ & _ & _ & ?).
      * done.
Qed.

Lemma validateRulesFrom_None (names : gmap string bool) (rules : list Rule) :
  validateRulesFrom names rules = None ↔
  (∀ r, r ∈ rules →
        hasAdditions r ∧ selectorsValid r ∧ names !! ruleName r = None)
  ∧ NoDup (map ruleName rules).
Proof.
  revert names. induction rules as [|a rules IH]; intros names; simpl.
  - split; [|done]. intros _. split; [|constructor].
    intros r Hr. by apply elem_of_nil in Hr.
  - destruct (checkRule names a) as [e|] eqn:Hcheck.
    + split; [done|]. intros [Hall _].
      destruct (Hall a (list_elem_of_here _ _)) as (Ha & Hs & Hn).
      assert (checkRule names a = None) as Hnone
        by by apply checkRule_None.
      congruence.
    + apply checkRule_None in Hcheck as (Ha & Hn & Hs).
      rewrite IH, NoDup_cons. unfold ruleName in *. split.
      * intros [Hall Hnd]. split; [|split; [|done]].
        -- intros r Hr. apply elem_of_cons in Hr as [->|Hr]; [done|].
           destruct (Hall r Hr) as (? & ? & Hfresh). split; [done|].
           split; [done|].
           destruct (decide (Name (Registration a) = Name (Registration r)))
             as [Heq|Hne].
           ++ rewrite Heq in Hfresh. by rewrite lookup_insert_eq in Hfresh.
           ++ by rewrite lookup_insert_ne in Hfresh.
        -- intros Hin. apply list_elem_of_fmap in Hin as (r & Heq & Hr).
           destruct (Hall r Hr) as (_ & _ & Hfresh).
           rewrite <- Heq in Hfresh.
           by rewrite lookup_insert_eq in Hfresh.
      * intros (Hall & Hfresh & Hnd). split; [|done].
        intros r Hr. destruct (Hall r (list_elem_of_further _ _ _ Hr))
          as (? & ? & Hn'). split; [done|]. split; [done|].
        rewrite lookup_insert_ne; [done|].
        intros Heq. apply Hfresh. apply list_elem_of_fmap. by exists r.
Qed.

(** What [ValidateConfig] accepts: a known log level, the two webhook
    parameters set, and a rule set in which every rule has an addition and
    valid selectors and no two rules share a name. *)
Theorem ValidateConfig_accepts (c : Configuration) (v : Viper) :
  ValidateConfig c v = None ↔
  is_Some (LogLevels !! LogLevel c)
  ∧ IsSet v "server.namespace" = true
  ∧ IsSet v "server.service" = true
  ∧ (∀ r, r ∈ Rules c → hasAdditions r ∧ selectorsValid r)
  ∧ NoDup (map ruleName (Rules c)).
Proof.
  unfold config.ValidateConfig, validateLogArgs, validateWebhookArgs,
    config.validateRules.
  destruct (LogLevels !! LogLevel c) as [level|] eqn:Hl.
  2: { split; [done|]. by intros [[? ?] _]. }
  simpl. destruct (IsSet v "server.namespace"); simpl.
  2: { split; [done|]. by intros (_ & ? & _). }
  destruct (IsSet v "server.service"); simpl.
  2: { split; [done|]. by intros (_ & _ & ? & _). }
  destruct (validateRulesFrom ∅ (Rules c)) as [e|] eqn:Hr.
  - split; [done|]. intros (_ & _ & _ & Hall & Hnd).
    assert (validateRulesFrom ∅ (Rules c) = None) as Hnone.
    { apply validateRulesFrom_None. split; [|done].
      intros r Hin. destruct (Hall r Hin). by rewrite lookup_empty. }
    congruence.
  - apply validateRulesFrom_None in Hr as [Hall Hnd].
    split; [|done]. intros _. split; [by eexists|].
    do 2 (split; [done|]). split; [|done].
    intros r Hin. by destruct (Hall r Hin) as (? & ? & _).
Qed.

Lemma noAdditions_test (r : Rule) :
  (length (Labels (Additions r)) =? 0)%nat
  && (length (Annotations (Additions r)) =? 0)%nat = true
  → noAdditions r.
Proof.
  unfold noAdditions.
  by destruct (Labels (Additions r)), (Annotations (Additions r)).
Qed.

(** What an error of the loop body says about the rule. *)
Lemma checkRule_Some (names : gmap string bool) (r : Rule) (e : error) :
  checkRule names r = Some e →
  (e = ErrNoAdditions (ruleName r) ∧ noAdditions r)
  ∨ (e = ErrDuplicateName (ruleName r) ∧ is_Some (names !! ruleName r))
  ∨ (∃ selector msg,
       e = ErrLabelSelector (ruleName r) selector msg
       ∧ selector ∈ LabelSelectors (Matcher r)
       ∧ ValidateLabelSelector selector = Some msg)
  ∨ (∃ selector msg,
       e = ErrFieldSelector (ruleName r) selector msg
       ∧ selector ∈ FieldSelectors (Matcher r)
       ∧ ValidateFieldSelector selector = Some msg).
Proof.
  unfold config.checkRule, ruleName.
  destruct (_ && _) eqn:Hadd.
  { intros [= <-]. left. split; [done|]. by apply noAdditions_test. }
  destruct (bool_decide _) eqn:Hdup.
  { intros [= <-]. right. left. split; [done|].
    by apply bool_decide_eq_true in Hdup. }
  destruct (firstInvalid ValidateLabelSelector _) as [[sel msg]|] eqn:Hl.
  { intros [= <-]. right. right. left. exists sel, msg.
    split; [done|]. by apply firstInvalid_Some. }
  destruct (firstInvalid ValidateFieldSelector _) as [[sel msg]|] eqn:Hf;
    [|done].
  intros [= <-]. right. right. right. exists sel, msg.
  split; [done|]. by apply firstInvalid_Some.
Qed.

Lemma explains_cons (a : Rule) (rules : list Rule) (e : error) :
  explains rules e → explains (a :: rules) e.
Proof.
  destruct e; simpl; try done.
  - intros (r & Hr & H). exists r. split; [by right|done].
  - intros (i & j & r1 & r2 & Hij & Hi & Hj & H).
    exists (S i), (S j), r1, r2. split; [lia|done].
  - intros (r & Hr & H). exists r. split; [by right|done].
  - intros (r & Hr & H). exists r. split; [by right|done].
Qed.

Lemma validateRulesFrom_Some (names : gmap string bool) (rules : list Rule)
    (e : error) :
  validateRulesFrom names rules = Some e →
  explains rules e
  ∨ ∃ n r, e = ErrDuplicateName n ∧ r ∈ rules ∧ ruleName r = n
           ∧ is_Some (names !! n).
Proof.
  revert names. induction rules as [|a rules IH]; intros names; simpl; [done|].
  destruct (checkRule names a) as [e'|] eqn:Hcheck.
  - intros [= ->].
    apply checkRule_Some in Hcheck
      as [[-> Hno]|[[-> Hdup]|[(sel & msg & -> & Hin & Hv)
                              |(sel & msg & -> & Hin & Hv)]]].
    + left. simpl. exists a. split; [by left|done].
    + right. exists (ruleName a), a. split; [done|]. split; [by left|done].
    + left. simpl. exists a. split; [by left|done].
    + left. simpl. exists a. split; [by left|done].
  - intros Hrest. apply IH in Hrest as [Hex|(n & r & -> & Hr & Hn & Hsome)].
    + left. by apply explains_cons.
    + destruct (decide (ruleName a = n)) as [Ha|Ha].
      * left. simpl. apply list_elem_of_lookup in Hr as [j Hj].
        exists 0, (S j), a, r. split; [lia|done].
      * right. exists n, r. split; [done|]. split; [by right|].
        split; [done|]. unfold ruleName in Ha.
        by rewrite lookup_insert_ne in Hsome.
Qed.

(** Every error of [ValidateConfig] is justified by the configuration:
    an unknown log level, an unset webhook parameter, or a rule of the
    rule set that has the defect the error names (two rules in the case
    of a duplicate name). *)
Theorem ValidateConfig_error_justified (c : Configuration) (v : Viper)
    (e : error) :
  ValidateConfig c v = Some e →
  (e = ErrLogLevel (LogLevel c) ∧ LogLevels !! LogLevel c = None)
  ∨ (e = ErrMissingParameter
     ∧ (IsSet v "server.namespace" = false
        ∨ IsSet v "server.service" = false))
  ∨ explains (Rules c) e.
Proof.
  unfold config.ValidateConfig, validateLogArgs, validateWebhookArgs,
    config.validateRules.
  destruct (LogLevels !! LogLevel c) as [level|] eqn:Hl.
  2: { intros [= <-]. by left. }
  simpl. destruct (IsSet v "server.namespace"); simpl.
  2: { intros [= <-]. right. left. split; [done|by left]. }
  destruct (IsSet v "server.service"); simpl.
  2: { intros [= <-]. right. left. split; [done|by right]. }
  destruct (validateRulesFrom ∅ (Rules c)) as [e'|] eqn:Hr; [|done].
  intros [= ->]. right. right.
  apply validateRulesFrom_Some in Hr as [H|(n & r & _ & _ & _ & Hsome)];
    [done|].
  rewrite lookup_empty in Hsome. by destruct Hsome.
Qed.

End Validation.

Lemma ValidateConfig_error_justified_witness :
  terms.explains sample.ValidateSelector sample.ValidateSelector
    [sample.rule "a" [("k", "v")] []; sample.rule "b" [] [("k", "v")];
     sample.rule "a" [("k", "w")] []]
    (ErrDuplicateName "a").
Proof.
  destruct (ValidateConfig_error_justified unit sample.LogLevels
              sample.ValidateSelector sample.ValidateSelector
              (sample.configuration "info"
                 [sample.rule "a" [("k", "v")] [];
                  sample.rule "b" [] [("k", "v")];
                  sample.rule "a" [("k", "w")] []])
              sample.registry (ErrDuplicateName "a"))
    as [[H _]|[[H _]|H]].
  - vm_compute. reflexivity.
  - discriminate H.
  - discriminate H.
  - exact H.
Defined.

(** ** Loading *)

Lemma AllSettings_config (v : Viper) (k : string) (x : value) :
  pflags v !! k = None → fromEnv v k = None → config v !! k = Some x →
  AllSettings v !! k = Some x.
Proof.
  intros Hp He Hc. rewrite viper_facts.AllSettings_lookup.
  rewrite decide_True.
  - unfold find. by rewrite Hp, He, Hc.
  - unfold AllKeys. apply elem_of_union_l, elem_of_union_r, elem_of_dom.
    by eexists.
Qed.

Section Loading.

Variable HealthChecker : Type.
Variable decodeHealthChecker : gmap string value → HealthChecker * list string.
Variable decodeRules : option value → list Rule * list string.
Variable ParseInt : string → option Z.

Abbreviation Unmarshal :=
  (Unmarshal HealthChecker decodeHealthChecker decodeRules ParseInt).
Abbreviation LoadConfig :=
  (LoadConfig HealthChecker decodeHealthChecker decodeRules ParseInt).

(** The fields of [Server] and the last error of [Unmarshal], read off the
    settings. *)
Lemma Unmarshal_server (v : Viper) :
  let s := AllSettings v in
  let c := ServerConf (Unmarshal v).1 in
  WebhookPort c
  = (mapstructure.field 0%Z (mapstructure.decodeInt ParseInt)
       "server.port" s).1
  ∧ (∀ key field, (key, field) ∈ serverStringFields →
       field c = (mapstructure.field "" mapstructure.decodeString key s).1)
  ∧ (unusedKeys s ≠ [] → (Unmarshal v).2 ≠ []).
Proof.
  unfold config.Unmarshal.
  repeat match goal with
         | |- context [let '(_, _) := ?p in _] => destruct p eqn:?
         end.
  cbn [fst snd ServerConf WebhookPort]. split; [done|]. split.
  - intros key field Hin. apply list_elem_of_In in Hin. simpl in Hin.
    repeat match goal with
           | H : _ ∨ _ |- _ => destruct H as [H|H]
           | H : (_, _) = (_, _) |- _ => injection H as <- <-
           | H : False |- _ => destruct H
           end; simpl;
      match goal with
      | H : mapstructure.field _ _ ?k _ = _
        |- _ = (mapstructure.field _ _ ?k _).1 => by rewrite H
      end.
  - intros Hunused Herrs.
    repeat match goal with
           | H : _ ++ _ = [] |- _ => apply app_eq_nil in H as [? H]
           end.
    by destruct (unusedKeys _).
Qed.

(** After a successful read the registry has the file and the defaults of
    [setDefaults]; flags and environment are as before. *)
Lemma LoadConfig_Returned (fs : string → option (gmap string value))
    (file : string) (v : Viper) (m : gmap string value) :
  file ≠ "" → fs file = Some m →
  ∃ v', LoadConfig fs file v
        = Returned (unmarshalFromViperStrict HealthChecker
                      decodeHealthChecker decodeRules ParseInt v', v')
        ∧ config v' = m ∧ defaults v' = defaults (setDefaults v)
        ∧ pflags v' = pflags v
        ∧ (∀ k, fromEnv v' k = fromEnv v k).
Proof.
  intros Hfile Hfs. unfold config.LoadConfig.
  apply String.eqb_neq in Hfile as Hfile'. rewrite Hfile'. simpl.
  unfold ReadInConfig. simpl. rewrite Hfile', Hfile', Hfs.
  eexists. split; [done|]. by repeat split.
Qed.

(** [LoadConfig] ends the process with status 1 exactly when the named
    file cannot be read or parsed; otherwise it returns. *)
Theorem LoadConfig_exits_iff_unreadable
    (fs : string → option (gmap string value)) (file : string) (v : Viper) :
  file ≠ "" →
  (LoadConfig fs file v = Exited 1 ↔ fs file = None)
  ∧ (∀ code, LoadConfig fs file v = Exited code → code = 1%Z).
Proof.
  intros Hfile. destruct (fs file) as [m|] eqn:Hfs.
  - destruct (LoadConfig_Returned fs file v m Hfile Hfs) as (v' & -> & _).
    split; [split; done|done].
  - unfold config.LoadConfig.
    apply String.eqb_neq in Hfile as Hfile'. rewrite Hfile'. simpl.
    unfold ReadInConfig. simpl. rewrite Hfile', Hfile', Hfs.
    split; [done|]. by intros code [= <-].
Qed.

(** Without a file name [LoadConfig] selects the configuration name
    [/config]; as no search path is ever added, nothing is found and the
    process ends with status 1. *)
Theorem LoadConfig_without_file_exits
    (fs : string → option (gmap string value)) (v : Viper) :
  LoadConfig fs "" v = Exited 1.
Proof. reflexivity. Qed.

(** A string the file gives for a field of [Server] is the value of the
    field in the loaded configuration, and a number it gives for the port
    is the port, unless a flag or the environment supplies the key; where
    the file is silent the port, the company domain and the CA path have
    the values of [setDefaults]. *)
Theorem LoadConfig_server_from_file
    (fs : string → option (gmap string value)) (file : string) (v : Viper)
    (m : gmap string value) :
  file ≠ "" → fs file = Some m →
  ∃ c err v',
    LoadConfig fs file v = Returned (c, err, v')
    ∧ (∀ key field s,
         (key, field) ∈ serverStringFields → notOverridden v key →
         m !! key = Some (VStr s) → field (ServerConf c) = s)
    ∧ (notOverridden v "server.port" →
       (∀ n, m !! "server.port" = Some (VNum n) →
             WebhookPort (ServerConf c) = n)
       ∧ (m !! "server.port" = None →
          WebhookPort (ServerConf c) = 8443%Z))
    ∧ (notOverridden v "server.company-domain" →
       m !! "server.company-domain" = None →
       CompanyDomain (ServerConf c) = "acme.com")
    ∧ (notOverridden v "server.ca-cert-path" →
       m !! "server.ca-cert-path" = None →
       CACertPath (ServerConf c) = "/ca.pem").
Proof.
  intros Hfile Hfs.
  destruct (LoadConfig_Returned fs file v m Hfile Hfs)
    as (v' & Hload & Hconfig & Hdefaults & Hflags & Henv).
  destruct (Unmarshal_server v') as (Hport & Hstrings & _).
  unfold unmarshalFromViperStrict in Hload.
  destruct (Unmarshal v') as [c errs]. cbn [fst] in Hport, Hstrings.
  exists c, (match errs with [] => None | _ => Some (ErrUnmarshal errs) end), v'.
  split; [rewrite Hload; by destruct errs|].
  assert (∀ key x, notOverridden v key → m !! key = Some x →
                   AllSettings v' !! key = Some x) as Hfile_wins.
  { intros key x [Hp He] Hk. apply AllSettings_config.
    - by rewrite Hflags.
    - by rewrite Henv.
    - by rewrite Hconfig. }
  assert (∀ key x, notOverridden v key → m !! key = None →
                   defaults (setDefaults v) !! key = Some x →
                   AllSettings v' !! key = Some x) as Hdefault.
  { intros key x [Hp He] Hk Hd. apply viper_facts.AllSettings_default.
    - by rewrite Hflags.
    - by rewrite Henv.
    - by rewrite Hconfig.
    - by rewrite Hdefaults. }
  split; [|split; [|split]].
  - intros key field s Hin Hno Hk. rewrite (Hstrings key field Hin).
    unfold mapstructure.field. by rewrite (Hfile_wins key (VStr s)).
  - intros Hno. rewrite Hport. unfold mapstructure.field. split.
    + intros n Hk. by rewrite (Hfile_wins _ (VNum n)).
    + intros Hk. rewrite (Hdefault _ (VNum 8443)); [done..|].
      unfold setDefaults. simpl. rewrite ?lookup_insert_ne by done.
      apply lookup_insert_eq.
  - intros Hno Hk.
    rewrite (Hstrings "server.company-domain" CompanyDomain).
    + unfold mapstructure.field.
      rewrite (Hdefault _ (VStr "acme.com")); [done..|].
      unfold setDefaults. simpl. rewrite ?lookup_insert_ne by done.
      apply lookup_insert_eq.
    + apply list_elem_of_In. simpl. auto.
  - intros Hno Hk.
    rewrite (Hstrings "server.ca-cert-path" CACertPath).
    + unfold mapstructure.field.
      rewrite (Hdefault _ (VStr "/ca.pem")); [done..|].
      unfold setDefaults. simpl. rewrite ?lookup_insert_ne by done.
      apply lookup_insert_eq.
    + apply list_elem_of_In. simpl. auto.
Qed.

(** A key in the file that no field of the configuration declares makes
    [LoadConfig] return an unmarshal error. *)
Theorem LoadConfig_rejects_unknown_key
    (fs : string → option (gmap string value)) (file : string) (v : Viper)
    (m : gmap string value) (key : string) :
  file ≠ "" → fs file = Some m →
  is_Some (m !! key) → key ∉ declaredKeys →
  Str.HasPrefix key "health-checker." = false →
  ∃ c msgs v', LoadConfig fs file v = Returned (c, Some (ErrUnmarshal msgs), v').
Proof.
  intros Hfile Hfs Hkey Hundeclared Hprefix.
  destruct (LoadConfig_Returned fs file v m Hfile Hfs)
    as (v' & Hload & Hconfig & _).
  destruct (Unmarshal_server v') as (_ & _ & Herrs).
  unfold unmarshalFromViperStrict in Hload.
  destruct (Unmarshal v') as [c errs]. cbn [snd] in Herrs.
  assert (errs ≠ []) as Hne.
  { apply Herrs. intros Hnil.
    assert (key ∈ unusedKeys (AllSettings v')) as Hin.
    { unfold unusedKeys. apply list_elem_of_filter. split; [done|].
      apply elem_of_elements, elem_of_dom.
      rewrite viper_facts.AllSettings_lookup.
      assert (is_Some (find v' key)) as Hfind.
      { unfold find. rewrite Hconfig. destruct Hkey as [x ->].
        destruct (pflags v' !! key) as [[x' []]|]; [by eexists|..];
          destruct (fromEnv v' key); by eexists. }
      rewrite decide_True; [done|].
      unfold AllKeys. apply elem_of_union_l, elem_of_union_r, elem_of_dom.
      by rewrite Hconfig. }
    rewrite Hnil in Hin. by apply elem_of_nil in Hin. }
  exists c, errs, v'. rewrite Hload. by destruct errs.
Qed.

End Loading.

(** ** Loading at the sample file *)

Lemma LoadConfig_exits_iff_unreadable_witness :
  LoadConfig unit (λ _, (tt, [])) (λ _, ([], [])) (λ _, None)
    sample.configFiles "/config/missing.yaml" New = Exited 1.
Proof.
  apply (proj1 (LoadConfig_exits_iff_unreadable unit (λ _, (tt, []))
                  (λ _, ([], [])) (λ _, None) sample.configFiles
                  "/config/missing.yaml" New ltac:(discriminate))).
  reflexivity.
Defined.

Lemma LoadConfig_server_from_file_witness :
  ∃ c err v',
    LoadConfig unit (λ _, (tt, [])) (λ _, ([], [])) (λ _, None)
      sample.configFiles "/config/graffiti-config.yaml" New
    = Returned (c, err, v')
    ∧ Namespace (ServerConf c) = "kube-graffiti"
    ∧ CACertPath (ServerConf c) = "/tls/ca-cert"
    ∧ WebhookPort (ServerConf c) = 8443%Z
    ∧ CompanyDomain (ServerConf c) = "acme.com".
Proof.
  destruct (LoadConfig_server_from_file unit (λ _, (tt, [])) (λ _, ([], []))
              (λ _, None) sample.configFiles "/config/graffiti-config.yaml"
              New sample.file ltac:(discriminate) eq_refl)
    as (c & err & v' & Hload & Hstrings & Hport & Hdomain & _).
  exists c, err, v'. split; [exact Hload|].
  split; [|split; [|split]].
  - apply (Hstrings "server.namespace" Namespace "kube-graffiti").
    + apply list_elem_of_In. simpl. auto.
    + split; vm_compute; reflexivity.
    + vm_compute. reflexivity.
  - apply (Hstrings "server.ca-cert-path" CACertPath "/tls/ca-cert").
    + apply list_elem_of_In. simpl. auto.
    + split; vm_compute; reflexivity.
    + vm_compute. reflexivity.
  - apply (proj2 (Hport ltac:(split; vm_compute; reflexivity))).
    vm_compute. reflexivity.
  - apply Hdomain.
    + split; vm_compute; reflexivity.
    + vm_compute. reflexivity.
Defined.

Lemma LoadConfig_rejects_unknown_key_witness :
  ∃ c msgs v',
    LoadConfig unit (λ _, (tt, [])) (λ _, ([], [])) (λ _, None)
      moreFiles "/config/misspelt.yaml" New
    = Returned (c, Some (ErrUnmarshal msgs), v').
Proof.
  apply (LoadConfig_rejects_unknown_key unit (λ _, (tt, [])) (λ _, ([], []))
           (λ _, None) moreFiles "/config/misspelt.yaml" New
           fileWithMisspeltKey "server.namespac").
  - discriminate.
  - reflexivity.
  - eexists. vm_compute. reflexivity.
  - apply (bool_decide_unpack _). vm_compute. reflexivity.
  - reflexivity.
Defined.

End config_more.

(* ===================================================================== *)
(** * Further properties of [cmd/command.go] *)

Module cmd_more.

Import graffiti webhook viper cmd terms cmd_facts.

Section Run.

Variable HealthChecker : Type.
Variable zeroHealthChecker : HealthChecker.
Variable LogLevels : gmap string Z.
Variable ValidateLabelSelector : string → option string.
Variable ValidateFieldSelector : string → option string.
Variable UnmarshalServer : Viper → config.Server * option string.
Variable UnmarshalHealthCheck : Viper → HealthChecker * option string.
Variable UnmarshalRules : Viper → list config.Rule * option string.
Variable world : World.

Abbreviation unmarshal :=
  (cmd.unmarshalFromViperStrict HealthChecker zeroHealthChecker
     UnmarshalServer UnmarshalHealthCheck UnmarshalRules).
Abbreviation loadConfig :=
  (cmd.loadConfig HealthChecker zeroHealthChecker UnmarshalServer
     UnmarshalHealthCheck UnmarshalRules world).
Abbreviation ValidateConfig :=
  (@config.ValidateConfig HealthChecker LogLevels
     ValidateLabelSelector ValidateFieldSelector).
Abbreviation run :=
  (cmd.run HealthChecker zeroHealthChecker LogLevels
     ValidateLabelSelector ValidateFieldSelector UnmarshalServer
     UnmarshalHealthCheck UnmarshalRules world).

(** ** The calls of each step *)

Lemma registerRules_registration (rules : list config.Rule) (s : state) :
  registerRules world rules s
  = (Some (registration world rules).2,
     extend s (registration world rules).1).
Proof.
  revert s. induction rules as [|rule rules IH]; intros s; simpl.
  - by rewrite extend_nil.
  - unfold bind. rewrite emit_run. unfold config.ruleName.
    destruct (registerHook world _) as [err|]; [done|].
    rewrite IH, extend_extend.
    by destruct (registration world rules).
Qed.

Lemma initWebhookServer_calls (c : config.Configuration HealthChecker)
    (s : state) :
  let v := registry s in
  initWebhookServer world c s =
  match files world (GetString v "server.ca-cert-path") with
  | None =>
      (Some (Some "failed to load ca from file"),
       extend s [ReadFile (GetString v "server.ca-cert-path")])
  | Some _ =>
      (Some (registration world (config.Rules c)).2,
       extend s
         ([ReadFile (GetString v "server.ca-cert-path");
           NewServer (GetString v "server.company-domain")
             (GetString v "server.namespace") (GetString v "server.service")]
          ++ map (λ rule, AddGraffitiRule (config.ruleName rule))
               (config.Rules c)
          ++ [StartWebhookServer (GetString v "server.cert-path")
                (GetString v "server.key-path"); Sleep 2]
          ++ (registration world (config.Rules c)).1))
  end.
Proof.
  unfold config.ruleName, initWebhookServer, bind, read. rewrite emit_run.
  destruct (files world _) as [ca|]; [|done].
  simpl.
  rewrite (forEach_emit
             (λ rule, AddGraffitiRule (Name (config.Registration rule)))).
  simpl. rewrite registerRules_registration.
  unfold extend. simpl. do 2 f_equal.
  rewrite <- !app_assoc. simpl. reflexivity.
Qed.

Lemma loadConfig_calls (file : string) (s : state) :
  let v0 := (if negb (String.eqb file "") then SetConfigFile file
             else SetConfigName defaultConfigPath)
              (cmd.setDefaults (registry s)) in
  loadConfig file s =
  match ReadInConfig (configFiles world) v0 with
  | None =>
      (None, {| registry := v0;
                trace := trace s ++ [ReadInConfigFile (configFile v0); Exit 1] |})
  | Some v1 =>
      (Some (unmarshal v1),
       {| registry := v1;
          trace := trace s ++ [ReadInConfigFile (configFile v0)] |})
  end.
Proof.
  unfold cmd.loadConfig, bind, update, read, emit, ret, halt. simpl.
  destruct (ReadInConfig _ _) as [v1|]; simpl; [done|].
  by rewrite <- app_assoc.
Qed.

Lemma getKubeClients_calls (s : state) :
  getKubeClients world s =
  match inClusterConfig world with
  | Some err => (None, extend s [InClusterConfig; Panic err])
  | None =>
      match newForConfig world with
      | Some err => (None, extend s [InClusterConfig; NewForConfig; Panic err])
      | None => (Some tt, extend s [InClusterConfig; NewForConfig])
      end
  end.
Proof.
  unfold getKubeClients, bind, halt, ret. rewrite emit_run.
  destruct (inClusterConfig world) as [err|].
  - by rewrite emit_run, extend_extend.
  - rewrite emit_run, extend_extend.
    destruct (newForConfig world) as [err|]; [|done].
    by rewrite emit_run, extend_extend.
Qed.

(** The whole run, call by call. *)
Lemma run_calls (v : Viper) :
  run v =
  [InitLogger (GetString v "log-level");
   ReadInConfigFile (configFile (prepared v))]
  ++ match ReadInConfig (configFiles world) (prepared v) with
     | None => [Exit 1]
     | Some v1 =>
       match unmarshal v1 with
       | (c, Some _) => [Fatal "failed to load config"; Exit 1]
       | (c, None) =>
         ChangeLogLevel (GetString v1 "log-level") ::
         match ValidateConfig c v1 with
         | Some _ => [Fatal "failed to validate config"; Exit 1]
         | None =>
           InClusterConfig ::
           match inClusterConfig world with
           | Some err => [Panic err]
           | None =>
             NewForConfig ::
             match newForConfig world with
             | Some err => [Panic err]
             | None =>
               StartHealthChecker (GetString v1 "health-checker.path") ::
               ReadFile (GetString v1 "server.ca-cert-path") ::
               match files world (GetString v1 "server.ca-cert-path") with
               | None => [Fatal "webhook server failed to start"; Exit 1]
               | Some _ =>
                 serving world c v1
                 ++ match (registration world (config.Rules c)).2 with
                    | Some _ =>
                        [Fatal "webhook server failed to start"; Exit 1]
                    | None =>
                      if checkExistingDisabled v1
                      then [WaitForInterrupt; Exit 0]
                      else
                        InitKubeClients ::
                        match initKubeClients world with
                        | Some _ =>
                            [Fatal "failed to check existing namespaces";
                             Exit 1]
                        | None =>
                            [ApplyRulesAgainstExistingObjects
                               (map config.ruleName (config.Rules c));
                             WaitForInterrupt; Exit 0]
                        end
                    end
               end
             end
           end
         end
       end
     end.
Proof.
  unfold cmd.run, initRootCmd, cmd.runRootCmd, bind, read.
  rewrite emit_run; unfold extend; cbn [registry trace].
  change (cmd.loadConfig _ _ _ _ _ _ ?f ?s) with (loadConfig f s).
  rewrite loadConfig_calls. cbn [registry trace]. fold (prepared v).
  destruct (ReadInConfig (configFiles world) (prepared v)) as [v1|]; [|done].
  destruct (unmarshal v1) as [c [err|]]; cbn beta iota.
  { by rewrite fatal_run. }
  rewrite emit_run; unfold extend; cbn [registry trace].
  change (id v1) with v1.
  destruct (ValidateConfig c v1) as [err|]; cbn beta iota.
  { rewrite fatal_run. cbn. by rewrite <- ?app_assoc. }
  rewrite getKubeClients_calls.
  destruct (inClusterConfig world) as [err|]; cbn beta iota.
  { cbn. by rewrite <- ?app_assoc. }
  destruct (newForConfig world) as [err|]; cbn beta iota.
  { cbn. by rewrite <- ?app_assoc. }
  unfold extend; cbn [registry trace]. rewrite emit_run.
  rewrite initWebhookServer_calls. unfold extend; cbn [registry trace].
  destruct (files world (GetString v1 "server.ca-cert-path")) as [ca|];
    cbn beta iota.
  2: { rewrite fatal_run. cbn. by rewrite <- ?app_assoc. }
  unfold serving.
  destruct (registration world (config.Rules c)) as [calls [err|]];
    cbn [fst snd]; cbn beta iota.
  { rewrite fatal_run. cbn. rewrite <- ?app_assoc. cbn.
    by rewrite <- ?app_assoc. }
  rewrite cmd_facts.initExistingCheck_run. unfold extend; cbn [registry trace].
  destruct (checkExistingDisabled v1); cbn beta iota.
  { rewrite !emit_run. cbn. rewrite <- ?app_assoc. cbn.
    by rewrite <- ?app_assoc. }
  destruct (initKubeClients world) as [err|]; cbn beta iota.
  { rewrite fatal_run. cbn. rewrite <- ?app_assoc. cbn.
    by rewrite <- ?app_assoc. }
  rewrite !emit_run. cbn. rewrite <- ?app_assoc. cbn.
  by rewrite <- ?app_assoc.
Qed.

(** ** The registration loop *)

Lemma registration_all (rules : list config.Rule) :
  (∀ x, x ∈ rules → registerHook world (config.ruleName x) = None) →
  registration world rules
  = (map (λ x, RegisterHook (config.ruleName x)) rules, None).
Proof.
  induction rules as [|a rules IH]; intros Hall; simpl; [done|].
  rewrite (Hall a (list_elem_of_here _ _)), IH; [done|].
  intros x Hx. apply Hall. by right.
Qed.

Lemma registration_first_failure (pre post : list config.Rule)
    (r : config.Rule) (err : string) :
  (∀ x, x ∈ pre → registerHook world (config.ruleName x) = None) →
  registerHook world (config.ruleName r) = Some err →
  registration world (pre ++ r :: post)
  = (map (λ x, RegisterHook (config.ruleName x)) (pre ++ [r]), Some err).
Proof.
  intros Hpre Hr. induction pre as [|a pre IH]; simpl.
  - by rewrite Hr.
  - rewrite (Hpre a (list_elem_of_here _ _)), IH; [done|].
    intros x Hx. apply Hpre. by right.
Qed.

Lemma registration_None (rules : list config.Rule) :
  (registration world rules).2 = None ↔
  ∀ x, x ∈ rules → registerHook world (config.ruleName x) = None.
Proof.
  split; [|intros H; by rewrite registration_all].
  induction rules as [|a rules IH]; simpl.
  - intros _ x Hx. by apply elem_of_nil in Hx.
  - destruct (registerHook world (config.ruleName a)) as [err|] eqn:Ha;
      [done|].
    destruct (registration world rules) as [calls r] eqn:Hrest.
    simpl in *. intros Hr x Hx.
    apply elem_of_cons in Hx as [->|Hx]; [done|by apply IH].
Qed.

(** The hooks registered are the names of a prefix of the rules, and the
    loop makes no other call. *)
Lemma registration_hooks (rules : list config.Rule) :
  ∃ done_,
    (registration world rules).1 = map RegisterHook done_
    ∧ done_ `prefix_of` map config.ruleName rules.
Proof.
  induction rules as [|a rules IH]; simpl.
  - exists []. split; [done|apply prefix_nil].
  - destruct (registerHook world (config.ruleName a)) as [err|].
    + exists [config.ruleName a]. split; [done|].
      by apply (prefix_cons _ []), prefix_nil.
    + destruct IH as (done_ & Hcalls & Hprefix).
      destruct (registration world rules) as [calls r]. simpl in *.
      exists (config.ruleName a :: done_). split; [by rewrite Hcalls|].
      by apply prefix_cons.
Qed.

(** [initWebhookServer] returns an error without creating a server when
    the CA file cannot be read.  Otherwise it adds every rule, starts the
    server, sleeps, and registers the hooks in configuration order: all of
    them when every registration succeeds, and up to the first one that
    fails otherwise, whose error it returns; the rules after that one are
    not registered. *)
Theorem initWebhookServer_registers_until_failure
    (c : config.Configuration HealthChecker) (s : state) :
  let v := registry s in
  let started done_ :=
    extend s
      ([ReadFile (GetString v "server.ca-cert-path");
        NewServer (GetString v "server.company-domain")
          (GetString v "server.namespace") (GetString v "server.service")]
       ++ map (λ rule, AddGraffitiRule (config.ruleName rule)) (config.Rules c)
       ++ [StartWebhookServer (GetString v "server.cert-path")
             (GetString v "server.key-path"); Sleep 2]
       ++ map (λ rule, RegisterHook (config.ruleName rule)) done_) in
  (files world (GetString v "server.ca-cert-path") = None →
   initWebhookServer world c s
   = (Some (Some "failed to load ca from file"),
      extend s [ReadFile (GetString v "server.ca-cert-path")]))
  ∧ (is_Some (files world (GetString v "server.ca-cert-path")) →
     (∀ x, x ∈ config.Rules c →
           registerHook world (config.ruleName x) = None) →
     initWebhookServer world c s = (Some None, started (config.Rules c)))
  ∧ (is_Some (files world (GetString v "server.ca-cert-path")) →
     ∀ pre r post err,
       config.Rules c = pre ++ r :: post →
       (∀ x, x ∈ pre → registerHook world (config.ruleName x) = None) →
       registerHook world (config.ruleName r) = Some err →
       initWebhookServer world c s = (Some (Some err), started (pre ++ [r]))).
Proof.
  intros v started. rewrite initWebhookServer_calls. fold v.
  split; [|split].
  - by intros ->.
  - intros [ca ->] Hall. by rewrite registration_all.
  - intros [ca ->] pre r post err Hrules Hpre Hr.
    assert (registration world (config.Rules c)
            = (map (λ x, RegisterHook (config.ruleName x)) (pre ++ [r]),
               Some err)) as ->.
    { rewrite Hrules. by apply registration_first_failure. }
    done.
Qed.

(** ** The run as a whole *)

Lemma serving_kinds (c : config.Configuration HealthChecker) (v1 : Viper)
    (e : event) :
  e ∈ serving world c v1 →
  match e with
  | NewServer _ _ _ | AddGraffitiRule _ | StartWebhookServer _ _ | Sleep _
  | RegisterHook _ => True
  | _ => False
  end.
Proof.
  unfold serving. intros H.
  destruct (registration_hooks (config.Rules c)) as (done_ & Hcalls & _).
  rewrite Hcalls in H. trace_mem H; subst; try done.
  - apply list_elem_of_fmap in H as (rule & -> & _). done.
  - apply list_elem_of_fmap in H as (n & -> & _). done.
Qed.

(** The process contacts the cluster exactly when the configuration file
    is read, unmarshals without error and validates. *)
Theorem cluster_reached_iff_config_valid (v : Viper) :
  existsb reachesCluster (run v) = true ↔
  ∃ v1 c,
    ReadInConfig (configFiles world) (prepared v) = Some v1
    ∧ unmarshal v1 = (c, None)
    ∧ ValidateConfig c v1 = None.
Proof.
  rewrite run_calls.
  destruct (ReadInConfig (configFiles world) (prepared v)) as [v1|] eqn:Hread.
  2: { simpl. split; [done|]. by intros (? & ? & ? & _). }
  destruct (unmarshal v1) as [c [err|]] eqn:Hload.
  { simpl. split; [done|]. intros (? & ? & [= <-] & Hc & _). congruence. }
  destruct (ValidateConfig c v1) as [err|] eqn:Hvalid.
  { simpl. split; [done|]. intros (? & ? & [= <-] & Hc & Hv). congruence. }
  simpl. split; [|done]. intros _. by exists v1, c.
Qed.

(** A configuration file that cannot be read ends the process with
    status 1 right after the logger is set up: nothing is validated, no
    fatal line is logged and the cluster is not contacted. *)
Theorem run_unreadable_config (v : Viper) :
  ReadInConfig (configFiles world) (prepared v) = None →
  run v = [InitLogger (GetString v "log-level");
           ReadInConfigFile (configFile (prepared v)); Exit 1].
Proof. intros Hread. by rewrite run_calls, Hread. Qed.

(** The process ends with status 0 exactly when the configuration loads
    and validates, the cluster clients are created, the CA file is read,
    every hook is registered, and the existing-object check is disabled or
    its clients initialise. *)
Theorem run_succeeds_iff (v : Viper) :
  last (run v) = Some (Exit 0) ↔
  ∃ v1 c,
    ReadInConfig (configFiles world) (prepared v) = Some v1
    ∧ unmarshal v1 = (c, None)
    ∧ ValidateConfig c v1 = None
    ∧ inClusterConfig world = None
    ∧ newForConfig world = None
    ∧ is_Some (files world (GetString v1 "server.ca-cert-path"))
    ∧ (∀ x, x ∈ config.Rules c →
            registerHook world (config.ruleName x) = None)
    ∧ (checkExistingDisabled v1 = true ∨ initKubeClients world = None).
Proof.
  rewrite (run_calls v);
  destruct (ReadInConfig (configFiles world) (prepared v))
    as [v1|] eqn:Hread;
  [ destruct (unmarshal v1) as [c [err|]] eqn:Hload;
    [ | destruct (ValidateConfig c v1) as [err|] eqn:Hvalid;
        [ | destruct (inClusterConfig world) as [err|] eqn:Hcluster;
            [ | destruct (newForConfig world) as [err|] eqn:Hclient;
                [ | destruct (files world (GetString v1 "server.ca-cert-path"))
                      as [ca|] eqn:Hca;
                    [ destruct (registration world (config.Rules c))
                        as [calls [err|]] eqn:Hreg; cbn [snd];
                      [ | destruct (checkExistingDisabled v1) eqn:Hdisabled;
                          [ | destruct (initKubeClients world)
                                as [err|] eqn:Hkube ] ]
                    | ] ] ] ] ]
  | ];
  trace_last.
  all: try (split; [done|];
            intros (v1' & c' & Hr & Hl & Hv & Hic & Hnc & Hf & Hh & He);
            try (injection Hr as <-);
            first [ congruence
                  | by (destruct Hf as [? Hf]; congruence)
                  | by (rewrite Hload in Hl; injection Hl as <-;
                        apply registration_None in Hh;
                        rewrite Hreg in Hh)
                  | by (destruct He; congruence) ]).
  all: split; [|done]; intros _; exists v1, c; repeat (split; [done|]);
    (split; [apply registration_None; by rewrite Hreg|auto]).
Qed.

(** Every run ends with an exit or a panic.  It ends with status 0
    exactly when it got to wait for the interrupt; a fatal log line is
    always followed by status 1; and a panic comes only from the creation
    of the cluster clients, with the error they gave. *)
Theorem run_exit_status (v : Viper) :
  (∃ e, last (run v) = Some e
        ∧ (e = Exit 0 ∨ e = Exit 1 ∨ ∃ msg, e = Panic msg))
  ∧ (last (run v) = Some (Exit 0) ↔ WaitForInterrupt ∈ run v)
  ∧ (∀ msg, Fatal msg ∈ run v → last (run v) = Some (Exit 1))
  ∧ (∀ msg, Panic msg ∈ run v →
       last (run v) = Some (Panic msg)
       ∧ (inClusterConfig world = Some msg ∨ newForConfig world = Some msg)).
Proof.
  rewrite (run_calls v);
  destruct (ReadInConfig (configFiles world) (prepared v))
    as [v1|] eqn:Hread;
  [ destruct (unmarshal v1) as [c [err|]] eqn:Hload;
    [ | destruct (ValidateConfig c v1) as [err|] eqn:Hvalid;
        [ | destruct (inClusterConfig world) as [err|] eqn:Hcluster;
            [ | destruct (newForConfig world) as [err|] eqn:Hclient;
                [ | destruct (files world (GetString v1 "server.ca-cert-path"))
                      as [ca|] eqn:Hca;
                    [ destruct (registration world (config.Rules c))
                        as [calls [err|]] eqn:Hreg; cbn [snd];
                      [ | destruct (checkExistingDisabled v1) eqn:Hdisabled;
                          [ | destruct (initKubeClients world)
                                as [err|] eqn:Hkube ] ]
                    | ] ] ] ] ]
  | ];
    try (pose proof (serving_kinds c v1) as Hs;
         set (s := serving world c v1) in *; clearbody s);
    (split; [eexists; split; [trace_last; reflexivity|]; eauto|]);
    (split; [|split]).
  all: lazymatch goal with
       | |- _ ↔ _ =>
           trace_last;
           split; [try done
                  |intros H; trace_mem H; try done; try (by apply Hs in H)]
       | |- ∀ msg, Fatal _ ∈ _ → _ =>
           intros msg H; trace_last; trace_mem H; try done;
           try (by apply Hs in H)
       | |- ∀ msg, Panic _ ∈ _ → _ =>
           intros msg H; trace_last; trace_mem H; simplify_eq; try done;
           try (by apply Hs in H); auto
       end.
  all: intros _; repeat (apply elem_of_app; right);
    repeat first [ by apply elem_of_cons; left | apply elem_of_cons; right ].
Qed.

(** ** The order of the rules *)

Lemma rulesAdded_app (l1 l2 : list event) :
  rulesAdded (l1 ++ l2) = rulesAdded l1 ++ rulesAdded l2.
Proof. apply omap_app. Qed.

Lemma hooksRegistered_app (l1 l2 : list event) :
  hooksRegistered (l1 ++ l2) = hooksRegistered l1 ++ hooksRegistered l2.
Proof. apply omap_app. Qed.

Lemma rulesAdded_cons (e : event) (l : list event) :
  rulesAdded (e :: l)
  = match e with AddGraffitiRule n => [n] | _ => [] end ++ rulesAdded l.
Proof. by destruct e. Qed.

Lemma hooksRegistered_cons (e : event) (l : list event) :
  hooksRegistered (e :: l)
  = match e with RegisterHook n => [n] | _ => [] end ++ hooksRegistered l.
Proof. by destruct e. Qed.

Lemma rulesAdded_added (l : list config.Rule) :
  rulesAdded (map (λ rule, AddGraffitiRule (config.ruleName rule)) l)
  = map config.ruleName l.
Proof. induction l as [|a l IH]; [done|]. cbn. by f_equal. Qed.

Lemma rulesAdded_registered (l : list string) :
  rulesAdded (map RegisterHook l) = [].
Proof. by induction l. Qed.

Lemma hooksRegistered_added (l : list config.Rule) :
  hooksRegistered (map (λ rule, AddGraffitiRule (config.ruleName rule)) l)
  = [].
Proof. by induction l. Qed.

Lemma hooksRegistered_registered (l : list string) :
  hooksRegistered (map RegisterHook l) = l.
Proof. induction l as [|a l IH]; [done|]. cbn. by f_equal. Qed.

Lemma rulesAdded_serving (c : config.Configuration HealthChecker)
    (v1 : Viper) :
  rulesAdded (serving world c v1) = map config.ruleName (config.Rules c).
Proof.
  unfold serving.
  destruct (registration_hooks (config.Rules c)) as (done_ & -> & _).
  rewrite !rulesAdded_app, rulesAdded_added, rulesAdded_registered.
  cbn. by rewrite app_nil_r.
Qed.

Lemma hooksRegistered_serving (c : config.Configuration HealthChecker)
    (v1 : Viper) :
  hooksRegistered (serving world c v1)
    `prefix_of` map config.ruleName (config.Rules c)
  ∧ ((registration world (config.Rules c)).2 = None →
     hooksRegistered (serving world c v1)
     = map config.ruleName (config.Rules c)).
Proof.
  assert (hooksRegistered (serving world c v1)
          = hooksRegistered (registration world (config.Rules c)).1) as ->.
  { unfold serving.
    by rewrite !hooksRegistered_app, hooksRegistered_added. }
  split.
  - destruct (registration_hooks (config.Rules c)) as (done_ & -> & Hp).
    by rewrite hooksRegistered_registered.
  - intros Hnone.
    rewrite (registration_all _ (proj1 (registration_None _) Hnone)).
    cbn [fst].
    rewrite <- (hooksRegistered_registered
                  (map config.ruleName (config.Rules c))).
    by rewrite map_map.
Qed.

(** The hooks registered are always a prefix, in order, of the rules
    added to the server; and when the applier runs, it is given exactly
    the rules that were added and registered, in the same order. *)
Theorem run_rule_order (v : Viper) :
  hooksRegistered (run v) `prefix_of` rulesAdded (run v)
  ∧ (∀ names, ApplyRulesAgainstExistingObjects names ∈ run v →
       names = rulesAdded (run v) ∧ names = hooksRegistered (run v)).
Proof.
  rewrite (run_calls v);
  destruct (ReadInConfig (configFiles world) (prepared v))
    as [v1|] eqn:Hread;
  [ destruct (unmarshal v1) as [c [err|]] eqn:Hload;
    [ | destruct (ValidateConfig c v1) as [err|] eqn:Hvalid;
        [ | destruct (inClusterConfig world) as [err|] eqn:Hcluster;
            [ | destruct (newForConfig world) as [err|] eqn:Hclient;
                [ | destruct (files world (GetString v1 "server.ca-cert-path"))
                      as [ca|] eqn:Hca;
                    [ pose proof (hooksRegistered_serving c v1)
                        as [Hprefix Hall];
                      destruct (registration world (config.Rules c))
                        as [calls [err|]] eqn:Hreg; cbn [snd];
                      [ | destruct (checkExistingDisabled v1) eqn:Hdisabled;
                          [ | destruct (initKubeClients world)
                                as [err|] eqn:Hkube ] ]
                    | ] ] ] ] ]
  | ];
    try (pose proof (serving_kinds c v1) as Hs;
         pose proof (rulesAdded_serving c v1) as Hadded;
         set (s := serving world c v1) in *; clearbody s);
    repeat first [ rewrite rulesAdded_app | rewrite hooksRegistered_app
                 | rewrite rulesAdded_cons | rewrite hooksRegistered_cons ];
    change (rulesAdded []) with (@nil string);
    change (hooksRegistered []) with (@nil string);
    cbn beta iota; cbn [app]; rewrite ?app_nil_r;
    (split; [|intros names H; trace_mem H; simplify_eq;
              try (by apply Hs in H)]).
  all: first [ apply prefix_nil
             | by rewrite Hadded
             | by rewrite Hadded, Hall ].
Qed.

(** ** The existing-object check by default *)

Lemma select_layers (file : string) (w : Viper) :
  let w' := (if negb (String.eqb file "") then SetConfigFile file
             else SetConfigName defaultConfigPath) w in
  pflags w' = pflags w
  ∧ (∀ key, fromEnv w' key = fromEnv w key)
  ∧ defaults w' = defaults w.
Proof. by destruct (negb _). Qed.

Lemma setDefaults_layers (v : Viper) :
  pflags (setDefaults v) = pflags v
  ∧ (∀ key, fromEnv (setDefaults v) key = fromEnv v key).
Proof. split; [reflexivity|intros key; reflexivity]. Qed.

Lemma prepared_layers (v : Viper) :
  pflags (prepared v) = pflags v
  ∧ (∀ key, fromEnv (prepared v) key = fromEnv v key)
  ∧ defaults (prepared v) = defaults (setDefaults v).
Proof.
  destruct (select_layers (GetString v "config") (setDefaults v))
    as (Hp & He & Hd).
  destruct (setDefaults_layers v) as (Hp' & He').
  split; [|split].
  - etrans; [exact Hp|exact Hp'].
  - intros key. etrans; [exact (He key)|exact (He' key)].
  - exact Hd.
Qed.

Lemma ReadInConfig_layers (fs : string → option (gmap string value))
    (v v1 : Viper) :
  ReadInConfig fs v = Some v1 →
  pflags v1 = pflags v
  ∧ (∀ key, fromEnv v1 key = fromEnv v key)
  ∧ defaults v1 = defaults v
  ∧ fs (configFile v) = Some (config v1).
Proof.
  unfold ReadInConfig. destruct (String.eqb _ ""); [done|].
  destruct (fs (configFile v)) as [m|]; [|done].
  by intros [= <-].
Qed.

Lemma checkExistingDisabled_default (v v1 : Viper) :
  ReadInConfig (configFiles world) (prepared v) = Some v1 →
  (∀ f, pflags v !! "check-existing" = Some f → flagChanged f = false) →
  fromEnv v "check-existing" = None →
  (∀ m, configFiles world (configFile (prepared v)) = Some m →
        m !! "check-existing" = None) →
  checkExistingDisabled v1 = true.
Proof.
  intros Hread Hflag Henv Hfile.
  apply ReadInConfig_layers in Hread as (Hp & He & Hd & Hc).
  destruct (prepared_layers v) as (Hp' & He' & Hd').
  assert (find v1 "check-existing" = Some (VBool false)) as Hfind.
  { assert (defaults (setDefaults v) !! "check-existing"
            = Some (VBool false)) as Hdefault.
    { unfold setDefaults; simpl.
      rewrite ?lookup_insert_ne by done. apply lookup_insert_eq. }
    unfold find.
    rewrite Hp, Hp', He, He', Henv, (Hfile _ Hc), Hd, Hd', Hdefault.
    destruct (pflags v !! "check-existing") as [[x changed]|] eqn:Hf.
    - specialize (Hflag _ eq_refl). simpl in Hflag. by subst changed.
    - done. }
  unfold checkExistingDisabled, IsSet, GetString. by rewrite Hfind.
Qed.

(** Unless the flag is given on the command line, the environment has
    [GRAFFITI_CHECK_EXISTING], or the configuration file has the key
    [check-existing], the default of [setDefaults] decides: the clients of
    the existing-object check are not initialised and the applier does
    not run. *)
Theorem applier_off_by_default (v : Viper) :
  (∀ f, pflags v !! "check-existing" = Some f → flagChanged f = false) →
  fromEnv v "check-existing" = None →
  (∀ m, configFiles world (configFile (prepared v)) = Some m →
        m !! "check-existing" = None) →
  (InitKubeClients ∉ run v)
  ∧ (∀ names, ApplyRulesAgainstExistingObjects names ∉ run v).
Proof.
  intros Hflag Henv Hfile.
  pose proof (λ v1 H, checkExistingDisabled_default v v1 H Hflag Henv Hfile)
    as Hoff.
  rewrite (run_calls v);
  destruct (ReadInConfig (configFiles world) (prepared v))
    as [v1|] eqn:Hread;
  [ rewrite (Hoff v1 eq_refl);
    destruct (unmarshal v1) as [c [err|]] eqn:Hload;
    [ | destruct (ValidateConfig c v1) as [err|] eqn:Hvalid;
        [ | destruct (inClusterConfig world) as [err|] eqn:Hcluster;
            [ | destruct (newForConfig world) as [err|] eqn:Hclient;
                [ | destruct (files world (GetString v1 "server.ca-cert-path"))
                      as [ca|] eqn:Hca;
                    [ destruct (registration world (config.Rules c))
                        as [calls [err|]] eqn:Hreg; cbn [snd]
                    | ] ] ] ] ]
  | ];
    try (pose proof (serving_kinds c v1) as Hs;
         set (s := serving world c v1) in *; clearbody s);
    (split; [|intros names]); intros H; trace_mem H; try done;
    by apply Hs in H.
Qed.

(** ** The certificate and the key of the server by default *)

Lemma loaded_default (v v1 : Viper) (key : string) (x : value) :
  ReadInConfig (configFiles world) (prepared v) = Some v1 →
  config.notOverridden v key →
  (∀ m, configFiles world (configFile (prepared v)) = Some m →
        m !! key = None) →
  defaults (setDefaults v) !! key = Some x →
  find v1 key = Some x.
Proof.
  intros Hread [Hflag Henv] Hfile Hdefault.
  apply ReadInConfig_layers in Hread as (Hp & He & Hd & Hc).
  destruct (prepared_layers v) as (Hp' & He' & Hd').
  unfold find.
  by rewrite Hp, Hp', Hflag, He, He', Henv, (Hfile _ Hc), Hd, Hd', Hdefault.
Qed.

(** Unless the environment or the configuration file names them, the
    webhook server is started with the certificate [/server-cert] and the
    key [/server-key], the two defaults of [setDefaults]. *)
Theorem server_started_with_default_paths (v : Viper) (cert key : string) :
  config.notOverridden v "server.cert-path" →
  config.notOverridden v "server.key-path" →
  (∀ m, configFiles world (configFile (prepared v)) = Some m →
        m !! "server.cert-path" = None ∧ m !! "server.key-path" = None) →
  StartWebhookServer cert key ∈ run v →
  cert = "/server-cert" ∧ key = "/server-key".
Proof.
  intros Hcert Hkey Hfile.
  assert (∀ v1, ReadInConfig (configFiles world) (prepared v) = Some v1 →
                GetString v1 "server.cert-path" = "/server-cert"
                ∧ GetString v1 "server.key-path" = "/server-key") as Hpaths.
  { intros v1 Hread. unfold GetString.
    rewrite (loaded_default v v1 "server.cert-path" (VStr "/server-cert")),
            (loaded_default v v1 "server.key-path" (VStr "/server-key"));
      try done.
    - intros m Hm. by apply Hfile.
    - unfold setDefaults; simpl. apply lookup_insert_eq.
    - intros m Hm. by apply Hfile.
    - unfold setDefaults; simpl.
      rewrite ?lookup_insert_ne by done. apply lookup_insert_eq. }
  rewrite (run_calls v);
  destruct (ReadInConfig (configFiles world) (prepared v))
    as [v1|] eqn:Hread;
  [ destruct (Hpaths v1 eq_refl) as [Hc Hk];
    destruct (unmarshal v1) as [c [err|]] eqn:Hload;
    [ | destruct (ValidateConfig c v1) as [err|] eqn:Hvalid;
        [ | destruct (inClusterConfig world) as [err|] eqn:Hcluster;
            [ | destruct (newForConfig world) as [err|] eqn:Hclient;
                [ | destruct (files world (GetString v1 "server.ca-cert-path"))
                      as [ca|] eqn:Hca;
                    [ destruct (registration_hooks (config.Rules c))
                        as (done_ & Hcalls & _);
                      unfold serving; rewrite Hcalls;
                      destruct (registration world (config.Rules c))
                        as [calls [err|]] eqn:Hreg; cbn [snd];
                      [ | destruct (checkExistingDisabled v1) eqn:Hdisabled;
                          [ | destruct (initKubeClients world)
                                as [err|] eqn:Hkube ] ]
                    | ] ] ] ] ]
  | ];
    intros H; trace_mem H; try done;
    try (by apply list_elem_of_fmap in H as (? & ? & _));
    injection H as -> ->; done.
Qed.

End Run.

Lemma server_started_with_default_paths_witness :
  StartWebhookServer "/server-cert" "/server-key"
  ∈ sample.run (startedWith "/config/graffiti-config.yaml")
  ∧ "/server-cert" = "/server-cert" ∧ "/server-key" = "/server-key".
Proof.
  assert (StartWebhookServer "/server-cert" "/server-key"
          ∈ sample.run (startedWith "/config/graffiti-config.yaml")) as Hin.
  { apply list_elem_of_In. vm_compute.
    repeat first [ left; reflexivity | right ]. }
  split; [exact Hin|].
  refine (server_started_with_default_paths unit tt sample.LogLevels
            sample.ValidateSelector sample.ValidateSelector
            sample.UnmarshalServer (λ _, (tt, None))
            (λ _, (sample.rules, None)) sample.world
            (startedWith "/config/graffiti-config.yaml")
            "/server-cert" "/server-key" _ _ _ Hin).
  - split; vm_compute; reflexivity.
  - split; vm_compute; reflexivity.
  - intros m Hm.
    assert (configFiles sample.world
              (configFile
                 (prepared (startedWith "/config/graffiti-config.yaml")))
            = Some sample.file) as Hfile by (vm_compute; reflexivity).
    rewrite Hfile in Hm. injection Hm as <-.
    split; vm_compute; reflexivity.
Defined.

Lemma initWebhookServer_registers_until_failure_witness :
  ∃ st,
    initWebhookServer (worldRefusing "add-contact")
      (sample.configuration "info" sample.rules)
      {| registry := sample.registry; trace := [] |}
    = (Some (Some "admission registration refused"), st).
Proof.
  destruct (initWebhookServer_registers_until_failure unit
              (worldRefusing "add-contact")
              (sample.configuration "info" sample.rules)
              {| registry := sample.registry; trace := [] |})
    as (_ & _ & H).
  eexists.
  refine (H _ [sample.rule "add-owner" [("owner", "platform")] []]
            (sample.rule "add-contact" [] [("contact", "ops@acme.com")])
            [] "admission registration refused" _ _ _).
  - eexists. vm_compute. reflexivity.
  - reflexivity.
  - intros x Hx. apply list_elem_of_singleton in Hx as ->. reflexivity.
  - reflexivity.
Defined.

Lemma run_unreadable_config_witness :
  sample.run (startedWith "/config/missing.yaml")
  = [InitLogger "info"; ReadInConfigFile "/config/missing.yaml"; Exit 1].
Proof.
  apply (run_unreadable_config unit tt sample.LogLevels
           sample.ValidateSelector sample.ValidateSelector
           sample.UnmarshalServer (λ _, (tt, None))
           (λ _, (sample.rules, None)) sample.world
           (startedWith "/config/missing.yaml")).
  vm_compute. reflexivity.
Defined.

Lemma applier_off_by_default_witness :
  (InitKubeClients ∉ sample.run (startedWith "/config/graffiti-config.yaml"))
  ∧ (∀ names,
       ApplyRulesAgainstExistingObjects names
       ∉ sample.run (startedWith "/config/graffiti-config.yaml")).
Proof.
  apply (applier_off_by_default unit tt sample.LogLevels
           sample.ValidateSelector sample.ValidateSelector
           sample.UnmarshalServer (λ _, (tt, None))
           (λ _, (sample.rules, None)) sample.world
           (startedWith "/config/graffiti-config.yaml")).
  - intros f Hf. vm_compute in Hf. injection Hf as <-. reflexivity.
  - vm_compute. reflexivity.
  - intros m Hm.
    assert (configFiles sample.world
              (configFile (prepared (startedWith "/config/graffiti-config.yaml")))
            = Some sample.file) as Hfile by (vm_compute; reflexivity).
    rewrite Hfile in Hm. injection Hm as <-.
    vm_compute. reflexivity.
Defined.

End cmd_more.
